(** * SteamCMD: the KF2 configuration engine and the server supervisor

    A shallow embedding of [apps/kf2.py] (class [KF2]) and of
    [presets/tptiap_kf2.py] ([start_kf2_server_loop]).

    - Python [str] values are [string]s; a line feed is the character [LF].
    - A [dict] keeps insertion order, so a section table is an association
      list with at most one entry per key.
    - An [int] is a [Z]; list indices follow Python's rules for negative
      and out-of-range values.
    - A raised exception is the [Raise] case of [result].
    - The files and the cache directory the class methods work on are the
      fields of [disk]. *)

From Stdlib Require Import ZArith List String Ascii Bool Lia Permutation.
From Stdlib Require Import DecimalString DecimalZ.
Import ListNotations.

Local Open Scope string_scope.
Local Open Scope list_scope.
Local Open Scope Z_scope.

(** String concatenation keeps a notation of its own, so that [++] is
    always the append of lists. *)
Infix "+++" := String.append (right associativity, at level 60).

(* ================================================================== *)
(** ** The Python runtime the program relies on *)
(* ================================================================== *)

Module Py.

(** *** Exceptions *)

Inductive exn : Set :=
| KeyError
| IndexError
| ValueError
| FileNotFoundError
| OSError.

Inductive result (A : Type) : Type :=
| Ok (a : A)
| Raise (e : exn).
Arguments Ok {A} a.
Arguments Raise {A} e.

Definition bind {A B : Type} (m : result A) (k : A -> result B) : result B :=
  match m with
  | Ok a => k a
  | Raise e => Raise e
  end.

(** [[f(x) for x in xs]] where [f] may raise: the first exception wins. *)
Fixpoint map_result {A B : Type} (f : A -> result B) (xs : list A) : result (list B) :=
  match xs with
  | [] => Ok []
  | x :: r =>
      bind (f x) (fun y =>
      bind (map_result f r) (fun ys => Ok (y :: ys)))
  end.

(** *** Characters and strings *)

Definition LF : ascii := "010"%char.
Definition newline : string := String LF EmptyString.

Definition is_digit (c : ascii) : bool :=
  let n := nat_of_ascii c in (48 <=? n)%nat && (n <=? 57)%nat.

(** The blanks [int()] skips around ASCII text: tab, line feed, vertical
    tab, form feed, carriage return and space. *)
Definition is_space (c : ascii) : bool :=
  let n := nat_of_ascii c in
  ((9 <=? n)%nat && (n <=? 13)%nat) || (n =? 32)%nat.

(** [c in s] for a one-character [c]. *)
Fixpoint str_contains (c : ascii) (s : string) : bool :=
  match s with
  | EmptyString => false
  | String a r => Ascii.eqb a c || str_contains c r
  end.

(** Puts a character in front of the first string of a list. *)
Definition cons_head (c : ascii) (l : list string) : list string :=
  match l with
  | [] => [String c EmptyString]
  | h :: t => String c h :: t
  end.

(** [s.split(sep)] for a one-character separator: never empty. *)
Fixpoint str_split (sep : ascii) (s : string) : list string :=
  match s with
  | EmptyString => [EmptyString]
  | String c r =>
      if Ascii.eqb c sep then EmptyString :: str_split sep r
      else cons_head c (str_split sep r)
  end.

(** [sep.join(ls)] is [String.concat sep ls]; [s.startswith(p)] is
    [String.prefix p s]. *)
Definition join (sep : string) (ls : list string) : string := String.concat sep ls.
Definition startswith (s p : string) : bool := String.prefix p s.

Fixpoint lstrip (s : string) : string :=
  match s with
  | EmptyString => EmptyString
  | String c r => if is_space c then lstrip r else s
  end.

Fixpoint rstrip (s : string) : string :=
  match s with
  | EmptyString => EmptyString
  | String c r =>
      match rstrip r with
      | EmptyString => if is_space c then EmptyString else String c EmptyString
      | r' => String c r'
      end
  end.

Definition strip (s : string) : string := rstrip (lstrip s).

(** *** Integers and their text *)

(** ['%s' % n] for an int [n]. *)
Definition str_of_int (n : Z) : string := NilZero.string_of_int (Z.to_int n).

(** The digits of an integer literal, its underscores removed: a digit,
    then digits each preceded by at most one underscore. *)
Fixpoint literal_digits (prev_digit : bool) (s : string) : option string :=
  match s with
  | EmptyString => if prev_digit then Some EmptyString else None
  | String c r =>
      if is_digit c then option_map (String c) (literal_digits true r)
      else if Ascii.eqb c "_"%char && prev_digit then literal_digits false r
      else None
  end.

Definition parse_unsigned (s : string) : option Z :=
  match literal_digits false s with
  | Some ds => option_map Z.of_uint (NilEmpty.uint_of_string ds)
  | None => None
  end.

(** [int(s)] on ASCII text: white space around, an optional sign, a
    decimal literal; anything else is a [ValueError]. *)
Definition int_of_str (s : string) : result Z :=
  let body :=
    match strip s with
    | String "+" r => parse_unsigned r
    | String "-" r => option_map Z.opp (parse_unsigned r)
    | r => parse_unsigned r
    end in
  match body with
  | Some n => Ok n
  | None => Raise ValueError
  end.

(** *** Lists *)

(** The position [l[i]] denotes, if any: a negative [i] counts from the
    end. *)
Definition norm_index {A : Type} (l : list A) (i : Z) : option nat :=
  let n := Z.of_nat (List.length l) in
  let j := if i <? 0 then i + n else i in
  if (0 <=? j) && (j <? n) then Some (Z.to_nat j) else None.

(** [l[i]] *)
Definition getitem {A : Type} (l : list A) (i : Z) : result A :=
  match norm_index l i with
  | Some j =>
      match nth_error l j with
      | Some x => Ok x
      | None => Raise IndexError
      end
  | None => Raise IndexError
  end.

Fixpoint replace_nth {A : Type} (l : list A) (j : nat) (x : A) : list A :=
  match l, j with
  | [], _ => []
  | _ :: r, O => x :: r
  | a :: r, S j' => a :: replace_nth r j' x
  end.

(** [l[i] = x] *)
Definition setitem {A : Type} (l : list A) (i : Z) (x : A) : result (list A) :=
  match norm_index l i with
  | Some j => Ok (replace_nth l j x)
  | None => Raise IndexError
  end.

(** [l.insert(i, x)]: the position is clamped, it never raises. *)
Definition list_insert {A : Type} (l : list A) (i : Z) (x : A) : list A :=
  let n := Z.of_nat (List.length l) in
  let j := if i <? 0 then Z.max 0 (i + n) else Z.min i n in
  firstn (Z.to_nat j) l ++ x :: skipn (Z.to_nat j) l.

(** [enumerate(l)] restricted to the positions whose element passes [p]. *)
Fixpoint indices_from {A : Type} (p : A -> bool) (i : Z) (l : list A) : list Z :=
  match l with
  | [] => []
  | x :: r => if p x then i :: indices_from p (i + 1) r else indices_from p (i + 1) r
  end.

(** [x in items] for a list of ints. *)
Definition mem (x : Z) (items : list Z) : bool := existsb (Z.eqb x) items.

(** [sorted(names)]: strings in code-point order. *)
Fixpoint insert_sorted (x : string) (l : list string) : list string :=
  match l with
  | [] => [x]
  | y :: r => if String.leb x y then x :: l else y :: insert_sorted x r
  end.

Definition sorted (l : list string) : list string := fold_right insert_sorted [] l.

(** *** Dictionaries *)

Definition dict (V : Type) : Type := list (string * V).

Fixpoint dict_lookup {V : Type} (k : string) (d : dict V) : option V :=
  match d with
  | [] => None
  | (k', v) :: r => if String.eqb k' k then Some v else dict_lookup k r
  end.

(** [d[k]] *)
Definition dict_get {V : Type} (k : string) (d : dict V) : result V :=
  match dict_lookup k d with
  | Some v => Ok v
  | None => Raise KeyError
  end.

(** [d[k] = v]: a key already present keeps its place, a new one goes
    last. *)
Fixpoint dict_set {V : Type} (k : string) (v : V) (d : dict V) : dict V :=
  match d with
  | [] => [(k, v)]
  | (k', v') :: r =>
      if String.eqb k' k then (k, v) :: r else (k', v') :: dict_set k v r
  end.

Definition dict_remove {V : Type} (k : string) (d : dict V) : dict V :=
  filter (fun e => negb (String.eqb (fst e) k)) d.

(** [del d[k]] *)
Definition dict_del {V : Type} (k : string) (d : dict V) : result (dict V) :=
  match dict_lookup k d with
  | Some _ => Ok (dict_remove k d)
  | None => Raise KeyError
  end.

(** [d.setdefault(k, v)]: the table afterwards and the value returned. *)
Definition dict_setdefault {V : Type} (k : string) (v : V) (d : dict V) : dict V * V :=
  match dict_lookup k d with
  | Some v' => (d, v')
  | None => (dict_set k v d, v)
  end.

Definition keys {V : Type} (d : dict V) : list string := map fst d.

(** *** Sets of ints

    The language fixes what a set holds, not the order it is iterated
    in: [set_iter xs] is the order in which [set(xs)] yields its
    elements. *)

Class SetOrder : Type := {
  set_iter : list Z -> list Z;
  set_iter_NoDup : forall xs, NoDup (set_iter xs);
  set_iter_In : forall xs x, In x (set_iter xs) <-> In x xs
}.

(** *** The three regular expressions of the program *)

(** [re.split(r'\n\n+', s)]: the separators are the maximal runs of two
    or more line feeds. [in_sep] holds while such a run is being
    consumed. *)
Fixpoint re_split_blank_aux (in_sep : bool) (s : string) : list string :=
  match s with
  | EmptyString => [EmptyString]
  | String c r =>
      if Ascii.eqb c LF then
        if in_sep then re_split_blank_aux true r
        else
          match r with
          | EmptyString => [newline]
          | String c2 _ =>
              if Ascii.eqb c2 LF then EmptyString :: re_split_blank_aux true r
              else cons_head LF (re_split_blank_aux false r)
          end
      else cons_head c (re_split_blank_aux false r)
  end.

Definition re_split_blank (s : string) : list string := re_split_blank_aux false s.

(** [re.compile(r"\d+").search(s)]: the first maximal run of digits. *)
Fixpoint digit_run (s : string) : string :=
  match s with
  | EmptyString => EmptyString
  | String c r => if is_digit c then String c (digit_run r) else EmptyString
  end.

Fixpoint re_number_search (s : string) : option string :=
  match s with
  | EmptyString => None
  | String c r => if is_digit c then Some (digit_run s) else re_number_search r
  end.

(** Whether [lit] occurs in [s] at some position, every character before
    that position being one that [.] matches (not a line feed). *)
Fixpoint dots_then (lit : string) (s : string) : bool :=
  String.prefix lit s ||
  match s with
  | EmptyString => false
  | String c r => negb (Ascii.eqb c LF) && dots_then lit r
  end.

(** [re.compile(r'\[.+ KFMapSummary]').match(s)]: anchored at the start
    of [s] only. *)
Definition re_map_summary_match (s : string) : bool :=
  match s with
  | String "[" (String c r) => negb (Ascii.eqb c LF) && dots_then " KFMapSummary]" r
  | _ => false
  end.

End Py.

(* ================================================================== *)
(** ** [apps/kf2.py]: class [KF2] *)
(* ================================================================== *)

Module KF2.
Import Py.

Definition _gameinfo_section_key : string := "[KFGame.KFGameInfo]".
Definition _workshop_section_key : string :=
  "[OnlineSubsystemSteamworks.KFWorkshopSteamworks]".

(** The section table: header line -> body lines, in insertion order. *)
Definition table : Type := dict (list string).

(** An entry of the cache directory: its name, and whether
    [shutil.rmtree] can delete it. It can delete a directory tree it is
    allowed to delete; on a regular file, a link or a tree it may not
    delete it raises. *)
Record cache_entry : Type := {
  entry_name : string;
  deletable : bool
}.

(** What the class reads and writes: the two .ini files of the install
    directory ([None]: no such file) and the entries of the cache
    directory ([None]: no such directory). *)
Inductive ini : Set := GameIni | EngineIni.

Record disk : Type := {
  game_ini : option string;
  engine_ini : option string;
  cache_dir : option (list cache_entry)
}.

Definition file_of (p : ini) (d : disk) : option string :=
  match p with
  | GameIni => game_ini d
  | EngineIni => engine_ini d
  end.

Definition write_file (p : ini) (content : string) (d : disk) : disk :=
  match p with
  | GameIni => {| game_ini := Some content; engine_ini := engine_ini d; cache_dir := cache_dir d |}
  | EngineIni => {| game_ini := game_ini d; engine_ini := Some content; cache_dir := cache_dir d |}
  end.

(** *** [read_ini_file_to_table] *)

(** One turn of the loop over the sections:
    [header_line, *lines = section.split('\n')]
    [section_table[header_line] = lines] *)
Definition add_section (section_table : table) (section : string) : table :=
  match str_split LF section with
  | header_line :: lines => dict_set header_line lines section_table
  | [] => section_table
  end.

Definition table_of_content (content : string) : table :=
  fold_left add_section (re_split_blank content) [].

Definition read_ini_file_to_table (p : ini) (d : disk) : result table :=
  match file_of p d with
  | Some content => Ok (table_of_content content)
  | None => Raise FileNotFoundError
  end.

(** *** [write_table_to_ini_file] *)

(** [[k] + v + ['']] for every item, in the table's order. *)
Definition lines_of_table (t : table) : list string :=
  flat_map (fun kv => fst kv :: snd kv ++ [EmptyString]) t.

Definition content_of_table (t : table) : string := join newline (lines_of_table t).

Definition write_table_to_ini_file (p : ini) (t : table) (d : disk) : disk :=
  write_file p (content_of_table t) d.

(** *** [rebuild_map_summaries]

    [names] is what [get_custom_map_names()] returns: the walk over the
    cache and the custom directories is outside the model. *)

Definition is_custom_summary (header_line : string) (lines : list string) : bool :=
  re_map_summary_match header_line && (List.length lines =? 1)%nat.

(** The loop over [tuple(section_table.items())]: the snapshot is walked,
    the table itself loses the one-line summaries. *)
Definition drop_custom_summaries (section_table : table) : table :=
  fold_left
    (fun t kv => if is_custom_summary (fst kv) (snd kv) then dict_remove (fst kv) t else t)
    section_table section_table.

Definition summary_header (name : string) : string := "[" +++ name +++ " KFMapSummary]".
Definition summary_line (name : string) : string := "MapName=" +++ name.

Definition add_summaries (names : list string) (section_table : table) : table :=
  fold_left (fun t name => dict_set (summary_header name) [summary_line name] t)
    names section_table.

(** The method between its read and its write: what it does to the
    table. *)
Definition rebuild_table (names : list string) (section_table : table) : table :=
  add_summaries names (drop_custom_summaries section_table).

Definition rebuild_map_summaries (names : list string) (d : disk) : result disk :=
  bind (read_ini_file_to_table GameIni d) (fun section_table =>
  Ok (write_table_to_ini_file GameIni (rebuild_table names section_table) d)).

(** *** [set_workshop_items] and [remove_workshop_items] *)

(** [int(line.split('=')[1])] *)
Definition item_of_line (line : string) : result Z :=
  bind (getitem (str_split "="%char line) 1) int_of_str.

Definition workshop_line (item : Z) : string :=
  "ServerSubscribedWorkshopItems=" +++ str_of_int item.

(** The comprehension of [set_workshop_items]: lines without ['='] are
    filtered out before anything is parsed. *)
Definition existing_items_guarded (lines : list string) : result (list Z) :=
  map_result item_of_line (filter (str_contains "="%char) lines).

(** The comprehension of [remove_workshop_items]: every line is parsed. *)
Definition existing_items_unguarded (lines : list string) : result (list Z) :=
  map_result item_of_line lines.

Section WithSetOrder.
Context {order : SetOrder}.

(** [set_workshop_items] between its read and its write.
    [section_table[key][:] = ...] assigns into the list the table holds
    under [key] (the key is there after [setdefault]), which is
    [dict_set] on the table. *)
Definition set_items (items : list Z) (append : bool) (section_table : table)
  : result table :=
  let '(t1, lines) := dict_setdefault _workshop_section_key [] section_table in
  bind (existing_items_guarded lines) (fun existing_items =>
  let all_items :=
    if append then set_iter (items ++ existing_items) else set_iter items in
  Ok (dict_set _workshop_section_key (map workshop_line all_items) t1)).

Definition set_workshop_items (items : list Z) (append : bool) (d : disk) : result disk :=
  bind (read_ini_file_to_table EngineIni d) (fun section_table =>
  bind (set_items items append section_table) (fun t =>
  Ok (write_table_to_ini_file EngineIni t d))).

End WithSetOrder.

(** [remove_workshop_items] between its read and its write; [items] is
    [None] by default. *)
Definition remove_items (items : option (list Z)) (section_table : table)
  : result table :=
  let '(t1, lines) := dict_setdefault _workshop_section_key [] section_table in
  bind (existing_items_unguarded lines) (fun existing_items =>
  match items with
  | None => dict_del _workshop_section_key t1
  | Some items =>
      Ok (dict_set _workshop_section_key
            (map workshop_line (filter (fun item => negb (mem item items)) existing_items))
            t1)
  end).

Definition remove_workshop_items (items : option (list Z)) (d : disk) : result disk :=
  bind (read_ini_file_to_table EngineIni d) (fun section_table =>
  bind (remove_items items section_table) (fun t =>
  Ok (write_table_to_ini_file EngineIni t d))).

(** *** [rebuild_custom_mapcycle] *)

Definition dquote : string := String "034"%char EmptyString.

Definition is_cycle_line (line : string) : bool := startswith line "GameMapCycles".

Definition new_mapcycle (names : list string) : string :=
  "GameMapCycles=(Maps=("
  +++ join "," (map (fun x => dquote +++ x +++ dquote) (sorted names))
  +++ "))".

(** [rebuild_custom_mapcycle] between its read and its write.
    [gameinfo_section] is the list the table holds, so the insertion or
    the assignment into it is [dict_set] on the table. *)
Definition rebuild_cycle (names : list string) (index : Z) (section_table : table)
  : result table :=
  bind (dict_get _gameinfo_section_key section_table) (fun gameinfo_section =>
  let map_cycle_indices := indices_from is_cycle_line 0 gameinfo_section in
  bind
    (if index >? Z.of_nat (List.length map_cycle_indices) - 1 then
       bind (getitem map_cycle_indices (-1)) (fun last =>
       Ok (list_insert gameinfo_section (last + 1) (new_mapcycle names)))
     else
       bind (getitem map_cycle_indices index) (fun i =>
       setitem gameinfo_section i (new_mapcycle names)))
    (fun section' => Ok (dict_set _gameinfo_section_key section' section_table))).

Definition rebuild_custom_mapcycle (names : list string) (index : Z) (d : disk)
  : result disk :=
  bind (read_ini_file_to_table GameIni d) (fun section_table =>
  bind (rebuild_cycle names index section_table) (fun t =>
  Ok (write_table_to_ini_file GameIni t d))).

(** *** [clear_unregistered_workshop_maps] *)

(** The IDs of the subscribed maps, as strings: the first run of digits
    of every line that has one. *)
Fixpoint map_ids (lines : list string) : list string :=
  match lines with
  | [] => []
  | line :: r =>
      match re_number_search line with
      | Some m => m :: map_ids r
      | None => map_ids r
      end
  end.

Definition str_in (s : string) (l : list string) : bool := existsb (String.eqb s) l.

(** [shutil.rmtree] of one entry of the cache directory: the directory
    without it, or the exception ([NotADirectoryError], [PermissionError]
    and the like are all [OSError]s) with the entry left where it is. *)
Definition rmtree (e : cache_entry) (cache : list cache_entry) : result (list cache_entry) :=
  if deletable e
  then Ok (filter (fun x => negb (String.eqb (entry_name x) (entry_name e))) cache)
  else Raise OSError.

(** The loop over [os.listdir(cache)]: the directory as the loop leaves
    it, and the exception that ended it, if one did. Nothing catches the
    exception of [rmtree], so the entries after the one it was raised on
    are not looked at. *)
Fixpoint clear_loop (ids : list string) (listing cache : list cache_entry)
  : list cache_entry * option exn :=
  match listing with
  | [] => (cache, None)
  | cache_dir :: rest =>
      if str_in (entry_name cache_dir) ids then clear_loop ids rest cache
      else
        match rmtree cache_dir cache with
        | Ok cache' => clear_loop ids rest cache'
        | Raise e => (cache, Some e)
        end
  end.

(** [clear_unregistered_workshop_maps] after its read: the entries left
    in the cache directory and the exception raised, if any. *)
Definition reconcile (section_table : table) (cache : list cache_entry)
  : list cache_entry * option exn :=
  match dict_lookup _workshop_section_key section_table with
  | None => (cache, Some KeyError)
  | Some lines => clear_loop (map_ids lines) cache cache
  end.

(** The method on the files: the disk as it leaves it and the exception
    raised, if any. It writes no file; what it deletes before an
    exception stays deleted. *)
Definition clear_unregistered_workshop_maps (d : disk) : disk * option exn :=
  match read_ini_file_to_table EngineIni d with
  | Raise e => (d, Some e)
  | Ok section_table =>
      match dict_lookup _workshop_section_key section_table with
      | None => (d, Some KeyError)
      | Some lines =>
          match cache_dir d with
          | None => (d, Some FileNotFoundError)
          | Some cache =>
              let '(cache', raised) := clear_loop (map_ids lines) cache cache in
              ({| game_ini := game_ini d; engine_ini := engine_ini d;
                  cache_dir := Some cache' |},
               raised)
          end
      end
  end.

End KF2.

(* ================================================================== *)
(** ** [presets/tptiap_kf2.py]: the supervisor *)
(* ================================================================== *)

Module Presets.

(** The two [Popen] objects the loop holds: [steam] is the update agent,
    [kf2] the game server. *)
Inductive proc : Set := steam | kf2.

(** What the supervisor does to the outside, in program order. *)
Inductive event : Set :=
| SetWorkshopItems
| ClearUnregisteredWorkshopMaps
| Launch (p : proc)
| Sleep (seconds : Z)
| Poll (p : proc)
| Terminate (p : proc)
| Wait (p : proc)
| RebuildMapSummaries
| RebuildCustomMapcycle
| LocalTime.

(** What one turn of the monitor loop can observe: the two [poll()]
    results ([None]: still running) and the local hour. *)
Record observation : Set := {
  kf2_poll : option Z;
  steam_poll : option Z;
  tm_hour : Z
}.

(** Where control is between two turns of the inner [while True]:
    at its top with the flag [is_restart_hour], or out of the function. *)
Inductive state : Set :=
| RUNNING (is_restart_hour : bool)
| STOPPED.

(** [start_kf2_server]: sync, warm up for five minutes, stop, rebuild,
    relaunch. *)
Definition start_kf2_server : list event :=
  [ SetWorkshopItems; ClearUnregisteredWorkshopMaps;
    Launch steam; Launch kf2; Sleep 300;
    Terminate steam; Terminate kf2; Wait steam; Wait kf2;
    RebuildMapSummaries; RebuildCustomMapcycle;
    Launch steam; Launch kf2 ].

(** One turn of the inner loop of [start_kf2_server_loop]. On [break]
    the turn runs on through the four calls after the loop and the next
    [start_kf2_server], up to the top of the inner loop again. *)
Definition turn (restart_hour : Z) (is_restart_hour : bool) (o : observation)
  : list event * state :=
  match kf2_poll o with
  | Some _ => ([Poll kf2; Terminate steam; Wait steam], STOPPED)
  | None =>
      match steam_poll o with
      | Some _ => ([Poll kf2; Poll steam; Terminate kf2; Wait kf2], STOPPED)
      | None =>
          let hour := tm_hour o in
          if (hour =? restart_hour) && is_restart_hour then
            ([Poll kf2; Poll steam; LocalTime;
              Terminate steam; Terminate kf2; Wait steam; Wait kf2]
             ++ start_kf2_server,
             RUNNING false)
          else
            ([Poll kf2; Poll steam; LocalTime; Sleep 1],
             RUNNING (if negb (hour =? restart_hour) then true else is_restart_hour))
      end
  end.

(** The loop from a state on, fed with the observations of its turns;
    once the function has returned nothing more happens. *)
Fixpoint run (restart_hour : Z) (s : state) (obs : list observation)
  : list event * state :=
  match s, obs with
  | STOPPED, _ => ([], STOPPED)
  | RUNNING _, [] => ([], s)
  | RUNNING b, o :: rest =>
      let '(ev, s') := turn restart_hour b o in
      let '(ev', s'') := run restart_hour s' rest in
      (ev ++ ev', s'')
  end.

Definition start_kf2_server_loop (restart_hour : Z) (obs : list observation)
  : list event * state :=
  let '(ev, s) := run restart_hour (RUNNING false) obs in
  (start_kf2_server ++ ev, s).

End Presets.

(* ================================================================== *)
(** ** Properties of the supervisor *)
(* ================================================================== *)

Section Supervisor.
Import Presets.

Lemma run_stopped : forall restart_hour obs,
  run restart_hour STOPPED obs = ([], STOPPED).
Proof. intros restart_hour obs. destruct obs; reflexivity. Qed.

Lemma run_app : forall restart_hour past s rest,
  run restart_hour s (past ++ rest)
  = (fst (run restart_hour s past)
       ++ fst (run restart_hour (snd (run restart_hour s past)) rest),
     snd (run restart_hour (snd (run restart_hour s past)) rest)).
Proof.
  intros restart_hour past.
  induction past as [|o past IH]; intros s rest.
  - destruct s; simpl.
    + destruct (run restart_hour (RUNNING is_restart_hour) rest); reflexivity.
    + rewrite run_stopped. reflexivity.
  - destruct s as [b|]; simpl.
    + destruct (turn restart_hour b o) as [ev s'].
      rewrite IH.
      destruct (run restart_hour s' past) as [ev1 s1]. simpl.
      rewrite app_assoc. reflexivity.
    + rewrite run_stopped. reflexivity.
Qed.

Lemma loop_unfold : forall restart_hour obs,
  start_kf2_server_loop restart_hour obs
  = (start_kf2_server ++ fst (run restart_hour (RUNNING false) obs),
     snd (run restart_hour (RUNNING false) obs)).
Proof.
  intros restart_hour obs. unfold start_kf2_server_loop.
  destruct (run restart_hour (RUNNING false) obs); reflexivity.
Qed.

(** The turn in which the update agent is seen to have exited while the
    server still runs. *)
Lemma turn_agent_exited : forall restart_hour b o code,
  kf2_poll o = None -> steam_poll o = Some code ->
  turn restart_hour b o = ([Poll kf2; Poll steam; Terminate kf2; Wait kf2], STOPPED).
Proof. intros restart_hour b o code Hk Hs. unfold turn. rewrite Hk, Hs. reflexivity. Qed.

(** C8 (as the code has it): from any point of the monitor loop, reached
    after any observations [past], a turn that finds the update agent
    exited and the server alive adds exactly four calls to the trace --
    poll of the server, poll of the agent, terminate on the server, wait
    on the server -- and the supervisor is stopped: whatever is observed
    later, nothing is launched again, and the agent's handle is not
    waited on. *)
Theorem agent_exit_stops_supervisor :
  forall restart_hour past b o code future,
    snd (start_kf2_server_loop restart_hour past) = RUNNING b ->
    kf2_poll o = None ->
    steam_poll o = Some code ->
    start_kf2_server_loop restart_hour (past ++ o :: future)
    = (fst (start_kf2_server_loop restart_hour past)
         ++ [Poll kf2; Poll steam; Terminate kf2; Wait kf2],
       STOPPED).
Proof.
  intros restart_hour past b o code future Hs Hk Hst.
  rewrite !loop_unfold in *. simpl in Hs.
  rewrite run_app, Hs. simpl run.
  rewrite (turn_agent_exited restart_hour b o code Hk Hst).
  rewrite run_stopped. cbn [fst snd].
  rewrite app_nil_r, app_assoc. reflexivity.
Qed.

Definition agent_gone : observation :=
  {| kf2_poll := None; steam_poll := Some 1; tm_hour := 12 |}.

Definition all_well (hour : Z) : observation :=
  {| kf2_poll := None; steam_poll := None; tm_hour := hour |}.

Lemma agent_exit_stops_supervisor_witness :
  start_kf2_server_loop 4 ([all_well 3; all_well 4] ++ agent_gone :: [all_well 12])
  = (fst (start_kf2_server_loop 4 [all_well 3; all_well 4])
       ++ [Poll kf2; Poll steam; Terminate kf2; Wait kf2],
     STOPPED).
Proof.
  apply (agent_exit_stops_supervisor 4 [all_well 3; all_well 4] false agent_gone 1
           [all_well 12]); reflexivity.
Defined.

(** C8 as stated fails: in that turn the supervisor does not wait on
    both handles; [steam.wait()] is never called. *)
Lemma agent_exit_waits_on_both_fails :
  ~ (let '(ev, s) := run 4 (RUNNING true) [agent_gone] in
     In (Terminate kf2) ev /\ In (Wait kf2) ev /\ In (Wait steam) ev /\ s = STOPPED).
Proof.
  simpl. intros (_ & _ & H & _).
  repeat (destruct H as [H|H]; [discriminate H|]). exact H.
Qed.

End Supervisor.

(* ================================================================== *)
(** ** Properties of the runtime functions *)
(* ================================================================== *)

Section Runtime.
Import Py.

Lemma getitem_nil : forall (A : Type) (i : Z), getitem (@nil A) i = Raise IndexError.
Proof.
  intros A i. unfold getitem, norm_index. simpl.
  destruct (i <? 0) eqn:Hi.
  - replace (0 <=? i + 0) with false; [reflexivity|].
    symmetry. apply Z.leb_gt. apply Z.ltb_lt in Hi. lia.
  - destruct (0 <=? i); simpl; [|reflexivity].
    replace (i <? 0) with false; reflexivity.
Qed.

Lemma indices_from_none : forall (A : Type) (p : A -> bool) (l : list A) (i : Z),
  (forall x, In x l -> p x = false) -> indices_from p i l = [].
Proof.
  intros A p l. induction l as [|x l IH]; intros i H; simpl.
  - reflexivity.
  - rewrite (H x (or_introl eq_refl)). apply IH.
    intros y Hy. apply H. right. exact Hy.
Qed.

End Runtime.

(* ================================================================== *)
(** ** The map cycle *)
(* ================================================================== *)

Section MapCycle.
Import Py KF2.

(** C1 (what the code does): when the game-info section holds no line
    that starts with [GameMapCycles], [rebuild_custom_mapcycle] raises
    [IndexError] for every index and every list of names; no line is
    inserted. *)
Theorem rebuild_cycle_without_cycle_lines_raises :
  forall names index section_table gameinfo_section,
    dict_lookup _gameinfo_section_key section_table = Some gameinfo_section ->
    (forall line, In line gameinfo_section -> is_cycle_line line = false) ->
    rebuild_cycle names index section_table = Raise IndexError.
Proof.
  intros names index t sec Hsec Hnone.
  unfold rebuild_cycle, dict_get. rewrite Hsec. simpl.
  rewrite (indices_from_none _ _ _ 0 Hnone). simpl.
  rewrite !getitem_nil. simpl. destruct (index >? -1); reflexivity.
Qed.

Lemma rebuild_cycle_without_cycle_lines_raises_witness :
  rebuild_cycle ["KF-A"] 5 [(_gameinfo_section_key, ["GameLength=1"])]
  = Raise IndexError.
Proof.
  apply (rebuild_cycle_without_cycle_lines_raises
           ["KF-A"] 5 [(_gameinfo_section_key, ["GameLength=1"])] ["GameLength=1"]).
  - reflexivity.
  - intros line [H|[]]. subst line. reflexivity.
Defined.

(** With at least one cycle line and an index past the last of them,
    the new line goes right after the last cycle line. *)
Lemma getitem_last : forall (A : Type) (l : list A) (x : A),
  getitem (l ++ [x]) (-1) = Ok x.
Proof.
  intros A l x. unfold getitem, norm_index.
  rewrite length_app. simpl List.length.
  replace (-1 <? 0) with true by reflexivity.
  replace (-1 + Z.of_nat (List.length l + 1)) with (Z.of_nat (List.length l)) by lia.
  replace ((0 <=? Z.of_nat (List.length l))
           && (Z.of_nat (List.length l) <? Z.of_nat (List.length l + 1))) with true.
  - rewrite Nat2Z.id, nth_error_app2, Nat.sub_diag by lia. reflexivity.
  - symmetry. apply andb_true_iff. split; [apply Z.leb_le|apply Z.ltb_lt]; lia.
Qed.

Lemma rebuild_cycle_past_last_inserts :
  forall names index section_table gameinfo_section others last,
    dict_lookup _gameinfo_section_key section_table = Some gameinfo_section ->
    indices_from is_cycle_line 0 gameinfo_section = others ++ [last] ->
    Z.of_nat (List.length others) < index ->
    rebuild_cycle names index section_table
    = Ok (dict_set _gameinfo_section_key
            (list_insert gameinfo_section (last + 1) (new_mapcycle names))
            section_table).
Proof.
  intros names index t sec others last Hsec Hidx Hlt.
  unfold rebuild_cycle, dict_get. rewrite Hsec. cbn [bind]. rewrite Hidx.
  rewrite length_app. simpl List.length.
  replace (index >? Z.of_nat (List.length others + 1) - 1) with true.
  - rewrite getitem_last. reflexivity.
  - symmetry. apply Z.gtb_lt. lia.
Qed.

End MapCycle.

(* ================================================================== *)
(** ** Dictionaries as association lists *)
(* ================================================================== *)

Section Dictionaries.
Import Py.
Context {V : Type}.
Implicit Types (d : dict V) (k : string) (v : V).

Lemma dict_lookup_set : forall d k k' v,
  dict_lookup k (dict_set k' v d)
  = if String.eqb k' k then Some v else dict_lookup k d.
Proof.
  intros d k k' v. induction d as [|[k0 v0] d IH]; simpl.
  - destruct (String.eqb k' k); reflexivity.
  - destruct (String.eqb k0 k') eqn:E0; simpl.
    + apply String.eqb_eq in E0. subst k0.
      destruct (String.eqb k' k); reflexivity.
    + destruct (String.eqb k0 k) eqn:E1.
      * apply String.eqb_eq in E1. subst k0.
        rewrite String.eqb_sym, E0. reflexivity.
      * exact IH.
Qed.

Lemma dict_lookup_set_same : forall d k v, dict_lookup k (dict_set k v d) = Some v.
Proof. intros. rewrite dict_lookup_set, String.eqb_refl. reflexivity. Qed.

Lemma dict_lookup_set_other : forall d k k' v,
  k' <> k -> dict_lookup k (dict_set k' v d) = dict_lookup k d.
Proof.
  intros d k k' v H. rewrite dict_lookup_set.
  apply String.eqb_neq in H. rewrite H. reflexivity.
Qed.

Lemma dict_lookup_None : forall d k, dict_lookup k d = None <-> ~ In k (keys d).
Proof.
  intros d k. induction d as [|[k0 v0] d IH]; simpl.
  - split; [intros _ []|reflexivity].
  - destruct (String.eqb k0 k) eqn:E.
    + apply String.eqb_eq in E. split; [discriminate|]. intros H. elim H. left. exact E.
    + apply String.eqb_neq in E. rewrite IH. tauto.
Qed.

Lemma dict_lookup_In : forall d k v, dict_lookup k d = Some v -> In (k, v) d.
Proof.
  intros d k v. induction d as [|[k0 v0] d IH]; simpl; [discriminate|].
  destruct (String.eqb k0 k) eqn:E.
  - apply String.eqb_eq in E. intros H. injection H as ->. left. congruence.
  - intros H. right. exact (IH H).
Qed.

Lemma In_dict_lookup : forall d k v,
  NoDup (keys d) -> In (k, v) d -> dict_lookup k d = Some v.
Proof.
  intros d k v. induction d as [|[k0 v0] d IH]; simpl; intros Hnd Hin; [contradiction|].
  inversion Hnd as [|? ? Hnotin Hnd']; subst.
  destruct Hin as [Heq|Hin].
  - injection Heq as -> ->. rewrite String.eqb_refl. reflexivity.
  - destruct (String.eqb k0 k) eqn:E.
    + apply String.eqb_eq in E. subst k0. elim Hnotin.
      change k with (fst (k, v)). apply in_map. exact Hin.
    + exact (IH Hnd' Hin).
Qed.

Lemma keys_dict_set : forall d k v,
  keys (dict_set k v d)
  = match dict_lookup k d with
    | Some _ => keys d
    | None => keys d ++ [k]
    end.
Proof.
  intros d k v. unfold keys. induction d as [|[k0 v0] d IH]; simpl; [reflexivity|].
  destruct (String.eqb k0 k) eqn:E; simpl.
  - apply String.eqb_eq in E. subst k0. reflexivity.
  - rewrite IH. destruct (dict_lookup k d); reflexivity.
Qed.

Lemma NoDup_keys_dict_set : forall d k v,
  NoDup (keys d) -> NoDup (keys (dict_set k v d)).
Proof.
  intros d k v Hnd. rewrite keys_dict_set.
  destruct (dict_lookup k d) eqn:E; [exact Hnd|].
  apply dict_lookup_None in E.
  apply NoDup_rev in Hnd. rewrite <- (rev_involutive (keys d ++ [k])).
  apply NoDup_rev. rewrite rev_app_distr. simpl. constructor; [|exact Hnd].
  rewrite <- in_rev. exact E.
Qed.

Lemma keys_filter_incl : forall (p : string * V -> bool) d k,
  In k (keys (filter p d)) -> In k (keys d).
Proof.
  intros p d k H. unfold keys in *. apply in_map_iff in H.
  destruct H as (e & He & Hin). apply filter_In in Hin.
  apply in_map_iff. exists e. tauto.
Qed.

Lemma NoDup_keys_filter : forall (p : string * V -> bool) d,
  NoDup (keys d) -> NoDup (keys (filter p d)).
Proof.
  intros p d. induction d as [|[k0 v0] d IH]; simpl; intros Hnd; [constructor|].
  inversion Hnd as [|? ? Hnotin Hnd']; subst.
  destruct (p (k0, v0)); simpl.
  - constructor; [|exact (IH Hnd')].
    intros H. apply Hnotin. exact (keys_filter_incl p d k0 H).
  - exact (IH Hnd').
Qed.

Lemma dict_lookup_filter : forall (p : string * V -> bool) d k,
  NoDup (keys d) ->
  dict_lookup k (filter p d)
  = match dict_lookup k d with
    | Some v => if p (k, v) then Some v else None
    | None => None
    end.
Proof.
  intros p d k. induction d as [|[k0 v0] d IH]; simpl; intros Hnd; [reflexivity|].
  inversion Hnd as [|? ? Hnotin Hnd']; subst.
  destruct (String.eqb k0 k) eqn:E.
  - apply String.eqb_eq in E. subst k0.
    destruct (p (k, v0)) eqn:Ep; simpl.
    + rewrite String.eqb_refl. reflexivity.
    + apply dict_lookup_None. intros H. apply Hnotin.
      exact (keys_filter_incl p d k H).
  - destruct (p (k0, v0)); simpl; [rewrite E|]; exact (IH Hnd').
Qed.

Lemma NoDup_keys_entries : forall d, NoDup (keys d) -> NoDup d.
Proof.
  intros d. induction d as [|[k0 v0] d IH]; simpl; intros Hnd; [constructor|].
  inversion Hnd as [|? ? Hnotin Hnd']; subst.
  constructor; [|exact (IH Hnd')].
  intros H. apply Hnotin. change k0 with (fst (k0, v0)). apply in_map. exact H.
Qed.

Lemma NoDup_keys_same_entry : forall d (e1 e2 : string * V),
  NoDup (keys d) -> In e1 d -> In e2 d -> fst e1 = fst e2 -> e1 = e2.
Proof.
  intros d [k1 v1] [k2 v2] Hnd H1 H2 Hk. simpl in Hk. subst k2.
  apply (In_dict_lookup d k1 v1 Hnd) in H1.
  apply (In_dict_lookup d k1 v2 Hnd) in H2.
  congruence.
Qed.

(** Two tables with the same bindings hold the same entries, possibly in
    another order. *)
Lemma same_lookup_Permutation : forall d1 d2,
  NoDup (keys d1) -> NoDup (keys d2) ->
  (forall k, dict_lookup k d1 = dict_lookup k d2) ->
  Permutation d1 d2.
Proof.
  intros d1 d2 H1 H2 Hl.
  apply NoDup_Permutation; try (apply NoDup_keys_entries; assumption).
  intros [k v]. split; intros Hin.
  - apply dict_lookup_In. rewrite <- Hl. apply In_dict_lookup; assumption.
  - apply dict_lookup_In. rewrite Hl. apply In_dict_lookup; assumption.
Qed.

End Dictionaries.

(* ================================================================== *)
(** ** Reading a file into a table *)
(* ================================================================== *)

Section ReadTable.
Import Py KF2.

Lemma str_split_not_nil : forall sep s, str_split sep s <> [].
Proof.
  intros sep s. destruct s as [|c r]; simpl; [discriminate|].
  destruct (Ascii.eqb c sep); [discriminate|].
  destruct (str_split sep r); discriminate.
Qed.

(** The header line and the body lines of one section of the file. *)
Definition section_header (section : string) : string :=
  hd EmptyString (str_split LF section).

Definition section_body (section : string) : list string :=
  tl (str_split LF section).

Lemma add_section_set : forall t section,
  add_section t section = dict_set (section_header section) (section_body section) t.
Proof.
  intros t section. unfold add_section, section_header, section_body.
  destruct (str_split LF section) eqn:E; [|reflexivity].
  elim (str_split_not_nil _ _ E).
Qed.

Lemma NoDup_keys_add_sections : forall sections t,
  NoDup (keys t) -> NoDup (keys (fold_left add_section sections t)).
Proof.
  intros sections. induction sections as [|s sections IH]; intros t H; simpl.
  - exact H.
  - apply IH. rewrite add_section_set. apply NoDup_keys_dict_set. exact H.
Qed.

Lemma dict_lookup_add_sections_other : forall sections t h,
  (forall s, In s sections -> section_header s <> h) ->
  dict_lookup h (fold_left add_section sections t) = dict_lookup h t.
Proof.
  intros sections. induction sections as [|s sections IH]; intros t h H; simpl.
  - reflexivity.
  - rewrite IH by (intros s' Hs'; apply H; right; exact Hs').
    rewrite add_section_set. apply dict_lookup_set_other.
    apply H. left. reflexivity.
Qed.

Lemma NoDup_count_occ_1 : forall (l : list string) (x : string),
  NoDup l -> In x l -> count_occ string_dec l x = 1%nat.
Proof.
  intros l x Hnd Hin.
  pose proof (proj1 (NoDup_count_occ string_dec l) Hnd x) as Hle.
  pose proof (proj1 (count_occ_In string_dec l x) Hin) as Hgt.
  lia.
Qed.

(** C10: when the file holds a section with header [h], and [s] is the
    last such section in file order, the table read from the file maps
    [h] to the body of [s] (the bodies of the earlier sections with that
    header are gone), [h] is a key of the table exactly once, and no
    header is a key twice. Reading is a total function of the content: it
    cannot fail on a repeated header. *)
Theorem read_keeps_last_duplicate :
  forall content h before s after,
    re_split_blank content = before ++ s :: after ->
    section_header s = h ->
    (forall s', In s' after -> section_header s' <> h) ->
    dict_lookup h (table_of_content content) = Some (section_body s)
    /\ count_occ string_dec (keys (table_of_content content)) h = 1%nat
    /\ NoDup (keys (table_of_content content)).
Proof.
  intros content h before s after Hsplit Hh Hafter.
  assert (Hnd : NoDup (keys (table_of_content content))).
  { unfold table_of_content. apply NoDup_keys_add_sections. constructor. }
  assert (Hl : dict_lookup h (table_of_content content) = Some (section_body s)).
  { unfold table_of_content. rewrite Hsplit, fold_left_app. simpl.
    rewrite (dict_lookup_add_sections_other after _ h Hafter).
    rewrite add_section_set, Hh. apply dict_lookup_set_same. }
  split; [exact Hl|]. split; [|exact Hnd].
  apply NoDup_count_occ_1; [exact Hnd|].
  apply dict_lookup_In in Hl.
  change h with (fst (h, section_body s)). apply in_map. exact Hl.
Qed.

(** A file with three sections, the first and the last under one header. *)
Definition twice_a : string :=
  "[A]" +++ newline +++ "x=1" +++ newline +++ newline
  +++ "[B]" +++ newline +++ "y=2" +++ newline +++ newline
  +++ "[A]" +++ newline +++ "x=3".

Lemma read_keeps_last_duplicate_witness :
  dict_lookup "[A]" (table_of_content twice_a) = Some ["x=3"]
  /\ count_occ string_dec (keys (table_of_content twice_a)) "[A]" = 1%nat
  /\ NoDup (keys (table_of_content twice_a)).
Proof.
  apply (read_keeps_last_duplicate twice_a "[A]"
           ["[A]" +++ newline +++ "x=1"; "[B]" +++ newline +++ "y=2"]
           ("[A]" +++ newline +++ "x=3") []).
  - reflexivity.
  - reflexivity.
  - intros s' [].
Defined.

End ReadTable.

(* ================================================================== *)
(** ** Rebuilding the map summaries *)
(* ================================================================== *)

Section Summaries.
Import Py KF2.

Lemma filter_filter_and : forall (A : Type) (p q : A -> bool) (l : list A),
  filter p (filter q l) = filter (fun x => q x && p x) l.
Proof.
  intros A p q l. induction l as [|x l IH]; simpl; [reflexivity|].
  destruct (q x); simpl; [destruct (p x)|]; rewrite IH; reflexivity.
Qed.

Lemma filter_comm : forall (A : Type) (p q : A -> bool) (l : list A),
  filter p (filter q l) = filter q (filter p l).
Proof.
  intros A p q l. rewrite !filter_filter_and.
  apply filter_ext. intros x. apply andb_comm.
Qed.

Lemma filter_idem : forall (A : Type) (p : A -> bool) (l : list A),
  filter p (filter p l) = filter p l.
Proof.
  intros A p l. rewrite filter_filter_and.
  apply filter_ext. intros x. destruct (p x); reflexivity.
Qed.

Definition not_custom (kv : string * list string) : bool :=
  negb (is_custom_summary (fst kv) (snd kv)).

(** The loop that deletes while walking the snapshot, for any snapshot. *)
Lemma drop_loop_filter : forall (snapshot t : table),
  fold_left
    (fun t kv => if is_custom_summary (fst kv) (snd kv) then dict_remove (fst kv) t else t)
    snapshot t
  = filter
      (fun e => negb (existsb
         (fun kv => is_custom_summary (fst kv) (snd kv) && String.eqb (fst e) (fst kv))
         snapshot))
      t.
Proof.
  intros snapshot. induction snapshot as [|kv snapshot IH]; intros t; simpl.
  - induction t as [|e t IHt]; simpl; [reflexivity|]. rewrite <- IHt. reflexivity.
  - rewrite IH. destruct (is_custom_summary (fst kv) (snd kv)); simpl.
    + unfold dict_remove. rewrite filter_filter_and.
      apply filter_ext. intros e. rewrite negb_orb. reflexivity.
    + reflexivity.
Qed.

(** On a table (no key twice) the loop removes exactly the one-line
    summaries. *)
Lemma drop_custom_summaries_filter : forall t,
  NoDup (keys t) -> drop_custom_summaries t = filter not_custom t.
Proof.
  intros t Hnd. unfold drop_custom_summaries. rewrite drop_loop_filter.
  apply filter_ext_in. intros e He. unfold not_custom. f_equal.
  destruct (is_custom_summary (fst e) (snd e)) eqn:Ec.
  - apply existsb_exists. exists e. split; [exact He|].
    rewrite Ec, String.eqb_refl. reflexivity.
  - destruct (existsb _ t) eqn:Ex; [|reflexivity].
    apply existsb_exists in Ex. destruct Ex as (kv & Hkv & Hb).
    apply andb_true_iff in Hb. destruct Hb as [Hc Heq].
    apply String.eqb_eq in Heq.
    rewrite (NoDup_keys_same_entry t e kv Hnd He Hkv Heq) in Ec. congruence.
Qed.

(** The header the last matching name of the catalog writes, if any. *)
Definition last_name_for (header_line : string) (names : list string) : option string :=
  find (fun name => String.eqb (summary_header name) header_line) (rev names).

Lemma dict_lookup_add_summaries : forall names t k,
  dict_lookup k (add_summaries names t)
  = match last_name_for k names with
    | Some name => Some [summary_line name]
    | None => dict_lookup k t
    end.
Proof.
  intros names. unfold add_summaries, last_name_for.
  induction names as [|n names IH] using rev_ind; intros t k.
  - reflexivity.
  - rewrite fold_left_app, rev_app_distr. cbn [fold_left rev app find].
    rewrite dict_lookup_set.
    destruct (String.eqb (summary_header n) k); [reflexivity|]. apply IH.
Qed.

Lemma NoDup_keys_add_summaries : forall names t,
  NoDup (keys t) -> NoDup (keys (add_summaries names t)).
Proof.
  intros names. unfold add_summaries.
  induction names as [|n names IH]; intros t H; simpl; [exact H|].
  apply IH. apply NoDup_keys_dict_set. exact H.
Qed.

Lemma NoDup_keys_rebuild : forall names t,
  NoDup (keys t) -> NoDup (keys (rebuild_table names t)).
Proof.
  intros names t H. unfold rebuild_table.
  apply NoDup_keys_add_summaries.
  rewrite (drop_custom_summaries_filter t H). apply NoDup_keys_filter. exact H.
Qed.

Lemma dict_lookup_rebuild : forall names t k,
  NoDup (keys t) ->
  dict_lookup k (rebuild_table names t)
  = match last_name_for k names with
    | Some name => Some [summary_line name]
    | None =>
        match dict_lookup k t with
        | Some lines => if not_custom (k, lines) then Some lines else None
        | None => None
        end
    end.
Proof.
  intros names t k H. unfold rebuild_table.
  rewrite dict_lookup_add_summaries, (drop_custom_summaries_filter t H).
  rewrite (dict_lookup_filter not_custom t k H). reflexivity.
Qed.

(** A section is regenerated when its header is one the catalog writes. *)
Definition regenerated (names : list string) (kv : string * list string) : bool :=
  str_in (fst kv) (map summary_header names).

Definition untouched (names : list string) (t : table) : table :=
  filter (fun kv => negb (regenerated names kv)) t.

Lemma untouched_dict_set : forall names name lines t,
  In name names ->
  untouched names (dict_set (summary_header name) lines t) = untouched names t.
Proof.
  intros names name lines t Hin.
  assert (Hr : forall v, regenerated names (summary_header name, v) = true).
  { intros v. unfold regenerated, str_in. apply existsb_exists.
    exists (summary_header name). split; [apply in_map; exact Hin|].
    apply String.eqb_refl. }
  unfold untouched. induction t as [|[k0 v0] t IH]; simpl.
  - rewrite Hr. reflexivity.
  - destruct (String.eqb k0 (summary_header name)) eqn:E; simpl.
    + apply String.eqb_eq in E. subst k0. rewrite !Hr. reflexivity.
    + rewrite IH. reflexivity.
Qed.

Lemma untouched_add_summaries : forall names t,
  untouched names (add_summaries names t) = untouched names t.
Proof.
  intros names.
  assert (H : forall some t, incl some names ->
            untouched names (add_summaries some t) = untouched names t).
  { intros some. unfold add_summaries.
    induction some as [|n some IH]; intros t Hincl; simpl; [reflexivity|].
    rewrite IH by (intros x Hx; apply Hincl; right; exact Hx).
    apply untouched_dict_set. apply Hincl. left. reflexivity. }
  intros t. apply H. apply incl_refl.
Qed.

(** What the method does to the table between its read and its write is
    idempotent up to the order of the entries: on a table (no header
    twice), applied a second time with the same catalog names it gives
    the same headers with the same bodies, and the sections the catalog
    does not regenerate stay in their order. The method itself reads the
    table from the file each time: two runs of it are compared with the
    files between them, further down. *)
Lemma rebuild_table_idempotent :
  forall names t,
    NoDup (keys t) ->
    Permutation (rebuild_table names (rebuild_table names t)) (rebuild_table names t)
    /\ untouched names (rebuild_table names (rebuild_table names t))
       = untouched names (rebuild_table names t).
Proof.
  intros names t Hnd.
  pose proof (NoDup_keys_rebuild names t Hnd) as Hnd1.
  split.
  - apply same_lookup_Permutation;
      [apply NoDup_keys_rebuild; exact Hnd1|exact Hnd1|].
    intros k. rewrite (dict_lookup_rebuild names _ k Hnd1).
    rewrite (dict_lookup_rebuild names t k Hnd).
    destruct (last_name_for k names); [reflexivity|].
    destruct (dict_lookup k t) as [lines|]; [|reflexivity].
    destruct (not_custom (k, lines)) eqn:E; [rewrite E|]; reflexivity.
  - unfold rebuild_table at 1. rewrite untouched_add_summaries.
    rewrite (drop_custom_summaries_filter _ Hnd1).
    unfold rebuild_table. unfold untouched at 1. rewrite filter_comm.
    fold (untouched names (add_summaries names (drop_custom_summaries t))).
    rewrite untouched_add_summaries.
    rewrite (drop_custom_summaries_filter t Hnd).
    unfold untouched. rewrite filter_comm, filter_idem. reflexivity.
Qed.

(** A vanilla eight-line summary whose name is also in the catalog, a
    one-line summary to drop, and an unrelated section. *)
Definition summaries_before : table :=
  [ ("[KF-A KFMapSummary]", ["1"; "2"; "3"; "4"; "5"; "6"; "7"; "8"]);
    ("[KF-B KFMapSummary]", ["MapName=KF-B"]);
    ("[Engine]", ["x=1"]) ].

End Summaries.

(* ================================================================== *)
(** ** The text of an integer *)
(* ================================================================== *)

Section IntegerText.
Import Py.

Fixpoint all_chars (p : ascii -> bool) (s : string) : bool :=
  match s with
  | EmptyString => true
  | String c r => p c && all_chars p r
  end.

Definition is_sign_or_digit (c : ascii) : bool := is_digit c || Ascii.eqb c "-"%char.

Lemma digit_cases : forall c,
  is_digit c = true ->
  In c ["0"; "1"; "2"; "3"; "4"; "5"; "6"; "7"; "8"; "9"]%char.
Proof.
  intros c. destruct c as [[] [] [] [] [] [] [] []]; intros H;
    try discriminate H; simpl; tauto.
Qed.

Ltac digit_case c H :=
  apply digit_cases in H; simpl in H;
  repeat (destruct H as [H|H]; [subst c|]); [..|contradiction].

Lemma digit_not_space : forall c, is_digit c = true -> is_space c = false.
Proof. intros c H. digit_case c H; reflexivity. Qed.

Lemma sign_or_digit_not_space : forall c, is_sign_or_digit c = true -> is_space c = false.
Proof.
  intros c H. unfold is_sign_or_digit in H. apply orb_true_iff in H.
  destruct H as [H|H].
  - apply digit_not_space. exact H.
  - apply Ascii.eqb_eq in H. subst c. reflexivity.
Qed.

Lemma all_chars_weaken : forall (p q : ascii -> bool) s,
  (forall c, p c = true -> q c = true) ->
  all_chars p s = true -> all_chars q s = true.
Proof.
  intros p q s Hpq. induction s as [|c r IH]; simpl; [reflexivity|].
  intros H. apply andb_true_iff in H. destruct H as [Hc Hr].
  rewrite (Hpq c Hc), (IH Hr). reflexivity.
Qed.

Lemma digits_of_uint : forall d, all_chars is_digit (NilEmpty.string_of_uint d) = true.
Proof. induction d; simpl; try reflexivity; exact IHd. Qed.

(** The decimal text of a natural number: one digit at least, digits
    only. *)
Lemma text_of_uint : forall d,
  exists c r, NilZero.string_of_uint d = String c r
              /\ is_digit c = true /\ all_chars is_digit r = true.
Proof.
  intros d. pose proof (digits_of_uint d) as H.
  destruct d; simpl in *;
    eexists; eexists; (split; [reflexivity|split; [reflexivity|exact H]]).
Qed.

Lemma digits_of_text : forall d, all_chars is_digit (NilZero.string_of_uint d) = true.
Proof.
  intros d. destruct (text_of_uint d) as (c & r & -> & Hc & Hr).
  simpl. rewrite Hc, Hr. reflexivity.
Qed.

Lemma rstrip_no_space : forall s,
  all_chars (fun c => negb (is_space c)) s = true -> rstrip s = s.
Proof.
  induction s as [|c r IH]; simpl; [reflexivity|].
  intros H. apply andb_true_iff in H. destruct H as [Hc Hr].
  rewrite (IH Hr). destruct r; [|reflexivity].
  apply negb_true_iff in Hc. rewrite Hc. reflexivity.
Qed.

Lemma strip_no_space : forall s,
  all_chars (fun c => negb (is_space c)) s = true -> strip s = s.
Proof.
  intros s H. unfold strip.
  assert (Hl : lstrip s = s).
  { destruct s as [|c r]; simpl; [reflexivity|].
    simpl in H. apply andb_true_iff in H. destruct H as [Hc _].
    apply negb_true_iff in Hc. rewrite Hc. reflexivity. }
  rewrite Hl. apply rstrip_no_space. exact H.
Qed.

Lemma literal_digits_all : forall s,
  all_chars is_digit s = true -> literal_digits true s = Some s.
Proof.
  induction s as [|c r IH]; simpl; [reflexivity|].
  intros H. apply andb_true_iff in H. destruct H as [Hc Hr].
  rewrite Hc, (IH Hr). reflexivity.
Qed.

Lemma parse_unsigned_text : forall d,
  parse_unsigned (NilZero.string_of_uint d) = Some (Z.of_uint d).
Proof.
  intros d. unfold parse_unsigned.
  assert (Hl : literal_digits false (NilZero.string_of_uint d)
               = Some (NilZero.string_of_uint d)).
  { destruct (text_of_uint d) as (c & r & -> & Hc & Hr).
    simpl. rewrite Hc, (literal_digits_all r Hr). reflexivity. }
  rewrite Hl.
  destruct d; try reflexivity;
    unfold NilZero.string_of_uint; rewrite NilEmpty.usu; reflexivity.
Qed.

Lemma int_of_str_text : forall i : Decimal.int,
  int_of_str (NilZero.string_of_int i) = Ok (Z.of_int i).
Proof.
  intros [d|d]; unfold int_of_str; simpl NilZero.string_of_int.
  - rewrite strip_no_space.
    + pose proof (parse_unsigned_text d) as Hp.
      destruct (text_of_uint d) as (c & r & E & Hc & Hr).
      rewrite E in *. digit_case c Hc; rewrite Hp; reflexivity.
    + apply all_chars_weaken with (p := is_digit); [|apply digits_of_text].
      intros c Hc. rewrite (digit_not_space c Hc). reflexivity.
  - rewrite strip_no_space.
    + rewrite parse_unsigned_text. reflexivity.
    + simpl. apply all_chars_weaken with (p := is_digit); [|apply digits_of_text].
      intros c Hc. rewrite (digit_not_space c Hc). reflexivity.
Qed.

(** [int(str(n)) == n] *)
Lemma int_of_str_of_int : forall n, int_of_str (str_of_int n) = Ok n.
Proof.
  intros n. unfold str_of_int. rewrite int_of_str_text.
  rewrite DecimalZ.of_to. reflexivity.
Qed.

Lemma str_of_int_chars : forall n, all_chars is_sign_or_digit (str_of_int n) = true.
Proof.
  intros n. unfold str_of_int.
  assert (H : forall d, all_chars is_sign_or_digit (NilZero.string_of_uint d) = true).
  { intros d. apply all_chars_weaken with (p := is_digit); [|apply digits_of_text].
    intros c Hc. unfold is_sign_or_digit. rewrite Hc. reflexivity. }
  destruct (Z.to_int n) as [d|d]; simpl NilZero.string_of_int; [apply H|].
  simpl. apply H.
Qed.

(** The text of a non-negative integer is made of digits. *)
Lemma str_of_int_digits : forall n,
  0 <= n ->
  exists c r, str_of_int n = String c r /\ is_digit c = true /\ all_chars is_digit r = true.
Proof.
  intros n Hn. unfold str_of_int.
  destruct n as [|p|p].
  - exists "0"%char, EmptyString. repeat split.
  - apply (text_of_uint (Pos.to_uint p)).
  - lia.
Qed.

End IntegerText.

(* ================================================================== *)
(** ** The workshop subscription *)
(* ================================================================== *)

Section SubscriptionLines.
Import Py KF2.

Lemma dict_set_set : forall (V : Type) (d : dict V) k v v',
  dict_set k v (dict_set k v' d) = dict_set k v d.
Proof.
  intros V d k v v'. induction d as [|[k0 v0] d IH]; simpl.
  - rewrite String.eqb_refl. reflexivity.
  - destruct (String.eqb k0 k) eqn:E; simpl.
    + rewrite String.eqb_refl. reflexivity.
    + rewrite E, IH. reflexivity.
Qed.

Lemma dict_set_same_value : forall (V : Type) (d : dict V) k v,
  dict_lookup k d = Some v -> dict_set k v d = d.
Proof.
  intros V d k v. induction d as [|[k0 v0] d IH]; simpl; [discriminate|].
  destruct (String.eqb k0 k) eqn:E.
  - apply String.eqb_eq in E. intros H. injection H as ->. subst k0. reflexivity.
  - intros H. rewrite (IH H). reflexivity.
Qed.

Lemma dict_lookup_remove : forall (V : Type) (d : dict V) k k',
  dict_lookup k' (dict_remove k d)
  = if String.eqb k k' then None else dict_lookup k' d.
Proof.
  intros V d k k'. unfold dict_remove. induction d as [|[k0 v0] d IH]; simpl.
  - destruct (String.eqb k k'); reflexivity.
  - destruct (String.eqb k0 k) eqn:E0; simpl.
    + apply String.eqb_eq in E0. subst k0. rewrite IH.
      destruct (String.eqb k k'); reflexivity.
    + rewrite IH. destruct (String.eqb k0 k') eqn:E1; [|reflexivity].
      apply String.eqb_eq in E1. subst k0.
      rewrite String.eqb_sym, E0. reflexivity.
Qed.

Lemma dict_remove_set : forall (V : Type) (d : dict V) k v,
  dict_remove k (dict_set k v d) = dict_remove k d.
Proof.
  intros V d k v. unfold dict_remove. induction d as [|[k0 v0] d IH]; simpl.
  - rewrite String.eqb_refl. reflexivity.
  - destruct (String.eqb k0 k) eqn:E; simpl.
    + rewrite String.eqb_refl. reflexivity.
    + rewrite E. simpl. rewrite IH. reflexivity.
Qed.

Lemma str_split_without_sep : forall sep s,
  all_chars (fun c => negb (Ascii.eqb c sep)) s = true -> str_split sep s = [s].
Proof.
  intros sep s. induction s as [|c r IH]; simpl; [reflexivity|].
  intros H. apply andb_true_iff in H. destruct H as [Hc Hr].
  apply negb_true_iff in Hc. rewrite Hc, (IH Hr). reflexivity.
Qed.

Lemma sign_or_digit_not_eq : forall c,
  is_sign_or_digit c = true -> negb (Ascii.eqb c "="%char) = true.
Proof.
  intros c H. unfold is_sign_or_digit in H. apply orb_true_iff in H.
  destruct H as [H|H].
  - apply digit_cases in H. simpl in H.
    repeat (destruct H as [H|H]; [subst c; reflexivity|]). contradiction.
  - apply Ascii.eqb_eq in H. subst c. reflexivity.
Qed.

Lemma str_split_workshop_line : forall item,
  str_split "="%char (workshop_line item)
  = ["ServerSubscribedWorkshopItems"; str_of_int item].
Proof.
  intros item. unfold workshop_line.
  assert (H : str_split "="%char (str_of_int item) = [str_of_int item]).
  { apply str_split_without_sep.
    apply all_chars_weaken with (p := is_sign_or_digit); [|apply str_of_int_chars].
    exact sign_or_digit_not_eq. }
  cbn [String.append str_split Ascii.eqb Bool.eqb cons_head]. rewrite H. reflexivity.
Qed.

(** A line the program wrote parses back to its ID. *)
Lemma item_of_workshop_line : forall item, item_of_line (workshop_line item) = Ok item.
Proof.
  intros item. unfold item_of_line. rewrite str_split_workshop_line.
  cbn [getitem norm_index List.length nth_error bind]. simpl.
  apply int_of_str_of_int.
Qed.

Lemma workshop_line_has_eq : forall item,
  str_contains "="%char (workshop_line item) = true.
Proof. intros item. reflexivity. Qed.

Lemma map_result_map : forall (A B : Type) (f : A -> result B) (g : B -> A) (l : list B),
  (forall x, f (g x) = Ok x) -> map_result f (map g l) = Ok l.
Proof.
  intros A B f g l H. induction l as [|x l IH]; simpl; [reflexivity|].
  rewrite H. simpl. rewrite IH. reflexivity.
Qed.

Lemma filter_all : forall (A : Type) (p : A -> bool) (l : list A),
  (forall x, In x l -> p x = true) -> filter p l = l.
Proof.
  intros A p l. induction l as [|x l IH]; simpl; intros H; [reflexivity|].
  rewrite (H x (or_introl eq_refl)), IH; [reflexivity|].
  intros y Hy. apply H. right. exact Hy.
Qed.

Lemma existing_items_guarded_written : forall items,
  existing_items_guarded (map workshop_line items) = Ok items.
Proof.
  intros items. unfold existing_items_guarded.
  rewrite filter_all.
  - apply map_result_map. exact item_of_workshop_line.
  - intros x Hx. apply in_map_iff in Hx. destruct Hx as (i & <- & _).
    apply workshop_line_has_eq.
Qed.

Lemma existing_items_unguarded_written : forall items,
  existing_items_unguarded (map workshop_line items) = Ok items.
Proof.
  intros items. unfold existing_items_unguarded.
  apply map_result_map. exact item_of_workshop_line.
Qed.

(** The body of the subscription section, empty when the section is
    absent (what [setdefault(key, [])] returns). *)
Definition section_lines (t : table) : list string :=
  match dict_lookup _workshop_section_key t with
  | Some lines => lines
  | None => []
  end.

(** The IDs [set_workshop_items] finds in a table. *)
Definition stored_items (t : table) : result (list Z) :=
  existing_items_guarded (section_lines t).

Lemma section_lines_set : forall lines t,
  section_lines (dict_set _workshop_section_key lines t) = lines.
Proof. intros lines t. unfold section_lines. rewrite dict_lookup_set_same. reflexivity. Qed.

Lemma set_items_unfold : forall (order : SetOrder) items append t,
  set_items items append t
  = bind (stored_items t) (fun existing_items =>
      Ok (dict_set _workshop_section_key
            (map workshop_line
               (if append then set_iter (items ++ existing_items) else set_iter items))
            t)).
Proof.
  intros order items append t. unfold set_items, stored_items, section_lines, dict_setdefault.
  destruct (dict_lookup _workshop_section_key t) as [lines|]; [reflexivity|].
  destruct (existing_items_guarded []); simpl; [|reflexivity].
  rewrite dict_set_set. reflexivity.
Qed.

Lemma remove_items_unfold : forall items t,
  remove_items items t
  = bind (existing_items_unguarded (section_lines t)) (fun existing_items =>
      match items with
      | None => Ok (dict_remove _workshop_section_key t)
      | Some items =>
          Ok (dict_set _workshop_section_key
                (map workshop_line (filter (fun item => negb (mem item items)) existing_items))
                t)
      end).
Proof.
  intros items t. unfold remove_items, section_lines, dict_setdefault, dict_del.
  destruct (dict_lookup _workshop_section_key t) as [lines|] eqn:E.
  - destruct (existing_items_unguarded lines); simpl; [|reflexivity].
    destruct items; [reflexivity|]. rewrite E. reflexivity.
  - simpl. destruct items as [items|]; simpl.
    + rewrite dict_set_set. reflexivity.
    + rewrite dict_lookup_set_same, dict_remove_set. reflexivity.
Qed.

End SubscriptionLines.

(* ================================================================== *)
(** ** One iteration order of a set *)
(* ================================================================== *)

Section SlotOrder.
Import Py.

(** The order of a hash table with eight slots in which an int hashes to
    itself: by slot. It is the order in which CPython yields a small set
    of small non-negative ints that do not collide: [list(set([1, 8]))]
    is [[8, 1]]. Ints that share a slot are kept next to each other, in
    the order of their last occurrences in the input. *)
Definition slots : list Z := [0; 1; 2; 3; 4; 5; 6; 7].

Definition slot_iter (xs : list Z) : list Z :=
  flat_map (fun s => filter (fun x => x mod 8 =? s) (nodup Z.eq_dec xs)) slots.

Lemma NoDup_by_slot : forall (f : Z -> Z) (l ss : list Z),
  NoDup l -> NoDup ss ->
  NoDup (flat_map (fun s => filter (fun x => f x =? s) l) ss).
Proof.
  intros f l ss Hl Hss. induction Hss as [|s ss Hnotin Hss IH]; simpl.
  - constructor.
  - apply NoDup_app; [apply NoDup_filter; exact Hl|exact IH|].
    intros a Ha Hb. apply filter_In in Ha. destruct Ha as [_ Ha].
    apply Z.eqb_eq in Ha. apply in_flat_map in Hb.
    destruct Hb as (s' & Hs' & Hb). apply filter_In in Hb. destruct Hb as [_ Hb].
    apply Z.eqb_eq in Hb. apply Hnotin. congruence.
Qed.

Lemma slot_iter_NoDup : forall xs, NoDup (slot_iter xs).
Proof.
  intros xs. unfold slot_iter. apply NoDup_by_slot; [apply NoDup_nodup|].
  unfold slots. repeat constructor; simpl; lia.
Qed.

Lemma slot_iter_In : forall xs x, In x (slot_iter xs) <-> In x xs.
Proof.
  intros xs x. unfold slot_iter. rewrite in_flat_map. split.
  - intros (s & _ & H). apply filter_In in H. destruct H as [H _].
    apply nodup_In in H. exact H.
  - intros H. exists (x mod 8). split.
    + pose proof (Z.mod_pos_bound x 8 ltac:(lia)) as Hb. unfold slots. simpl. lia.
    + apply filter_In. split; [apply nodup_In; exact H|apply Z.eqb_refl].
Qed.

Definition slot_order : SetOrder :=
  {| set_iter := slot_iter;
     set_iter_NoDup := slot_iter_NoDup;
     set_iter_In := slot_iter_In |}.

End SlotOrder.

(* ================================================================== *)
(** ** Setting and removing workshop items *)
(* ================================================================== *)

Section Subscription.
Import Py KF2.

Lemma map_result_Ok_iff : forall (A B : Type) (f : A -> result B) (xs : list A),
  (exists ys, map_result f xs = Ok ys) <-> (forall x, In x xs -> exists y, f x = Ok y).
Proof.
  intros A B f xs. induction xs as [|x xs IH]; simpl.
  - split; [intros _ x []|intros _; exists []; reflexivity].
  - split.
    + intros (ys & H) x' [<-|Hin].
      * destruct (f x) as [y|e]; [exists y; reflexivity|discriminate H].
      * destruct (f x) as [y|e]; [|discriminate H]. simpl in H.
        apply IH; [|exact Hin].
        destruct (map_result f xs) as [ys'|e]; [exists ys'; reflexivity|discriminate H].
    + intros H. destruct (H x (or_introl eq_refl)) as (y & Hy).
      destruct (proj2 IH (fun x' Hx' => H x' (or_intror Hx'))) as (ys & Hys).
      exists (y :: ys). rewrite Hy, Hys. reflexivity.
Qed.

Lemma map_result_Raise : forall (A B : Type) (f : A -> result B) (xs : list A) e,
  map_result f xs = Raise e -> exists x, In x xs /\ f x = Raise e.
Proof.
  intros A B f xs e. induction xs as [|x xs IH]; simpl; [discriminate|].
  destruct (f x) as [y|e'] eqn:E; simpl.
  - destruct (map_result f xs) as [ys|e'']; simpl; [discriminate|].
    intros H. injection H as ->.
    destruct (IH eq_refl) as (x' & Hin & Hx'). exists x'. tauto.
  - intros H. injection H as ->. exists x. tauto.
Qed.

Lemma str_split_with_sep : forall sep s,
  str_contains sep s = true -> exists a b rest, str_split sep s = a :: b :: rest.
Proof.
  intros sep s. induction s as [|c r IH]; simpl; [discriminate|].
  destruct (Ascii.eqb c sep); simpl.
  - intros _. destruct (str_split sep r) as [|b rest] eqn:E.
    + elim (str_split_not_nil _ _ E).
    + exists EmptyString, b, rest. reflexivity.
  - intros H. destruct (IH H) as (a & b & rest & ->).
    exists (String c a), b, rest. reflexivity.
Qed.

(** On a line with an ['='] the only exception is that of [int()]. *)
Lemma item_of_line_ValueError : forall line e,
  str_contains "="%char line = true -> item_of_line line = Raise e -> e = ValueError.
Proof.
  intros line e H. unfold item_of_line.
  destruct (str_split_with_sep _ _ H) as (a & b & rest & ->).
  assert (Hg : getitem (a :: b :: rest) 1 = Ok b).
  { unfold getitem, norm_index.
    replace (1 <? 0) with false by reflexivity.
    replace ((0 <=? 1) && (1 <? Z.of_nat (List.length (a :: b :: rest)))) with true.
    - reflexivity.
    - symmetry. apply andb_true_iff. split; [reflexivity|].
      apply Z.ltb_lt. simpl List.length. lia. }
  rewrite Hg. simpl. unfold int_of_str.
  match goal with |- match ?b with _ => _ end = _ -> _ => destruct b end;
    [discriminate|congruence].
Qed.

(** What either mode writes, once the lines in the section parse. *)
Lemma set_items_writes :
  forall (order : SetOrder) (items : list Z) (append : bool) (t : table) existing,
    stored_items t = Ok existing ->
    let all_items :=
      if append then set_iter (items ++ existing) else set_iter items in
    exists t',
      set_items items append t = Ok t'
      /\ section_lines t' = map workshop_line all_items
      /\ stored_items t' = Ok all_items
      /\ (forall k, k <> _workshop_section_key -> dict_lookup k t' = dict_lookup k t).
Proof.
  intros order items append t existing Hex all_items.
  rewrite set_items_unfold, Hex. simpl bind. fold all_items.
  eexists. split; [reflexivity|].
  split; [apply section_lines_set|].
  split; [unfold stored_items; rewrite section_lines_set;
          apply existing_items_guarded_written|].
  intros k Hk. apply dict_lookup_set_other. congruence.
Qed.

(** C3 (what the code does): REPLACE succeeds whenever the lines already
    in the section parse; the section then holds one line per distinct
    given ID, every given ID once however often and in whatever order it
    was given, in the order in which the set is iterated -- which the
    language leaves open, so the lines need not be in ascending order.
    The other sections are unchanged. *)
Theorem set_items_replace_lines :
  forall (order : SetOrder) items t existing,
    stored_items t = Ok existing ->
    exists t',
      set_items items false t = Ok t'
      /\ section_lines t' = map workshop_line (set_iter items)
      /\ stored_items t' = Ok (set_iter items)
      /\ NoDup (set_iter items)
      /\ (forall x, In x (set_iter items) <-> In x items)
      /\ (forall k, k <> _workshop_section_key -> dict_lookup k t' = dict_lookup k t).
Proof.
  intros order items t existing Hex.
  destruct (set_items_writes order items false t existing Hex) as (t' & H1 & H2 & H3 & H4).
  exists t'. repeat (split; [assumption|]).
  split; [apply set_iter_NoDup|].
  split; [apply set_iter_In|exact H4].
Qed.

Lemma set_items_replace_lines_witness :
  exists t',
    @set_items slot_order [3; 1; 2; 3] false [] = Ok t'
    /\ section_lines t' = map workshop_line (@set_iter slot_order [3; 1; 2; 3])
    /\ stored_items t' = Ok (@set_iter slot_order [3; 1; 2; 3])
    /\ NoDup (@set_iter slot_order [3; 1; 2; 3])
    /\ (forall x, In x (@set_iter slot_order [3; 1; 2; 3]) <-> In x [3; 1; 2; 3])
    /\ (forall k, k <> _workshop_section_key -> dict_lookup k t' = dict_lookup k []).
Proof.
  apply (set_items_replace_lines slot_order [3; 1; 2; 3] [] []). reflexivity.
Defined.

(** Strictly ascending IDs. *)
Inductive ascending : list Z -> Prop :=
| ascending_nil : ascending []
| ascending_one : forall x, ascending [x]
| ascending_cons : forall x y l, x < y -> ascending (y :: l) -> ascending (x :: y :: l).

(** C3 as stated fails: under an iteration order a hash table gives, the
    IDs 1 and 8 are written as the line for 8, then the line for 1. *)
Lemma set_items_not_ascending :
  ~ (forall (order : SetOrder) (items : list Z) (t t' : table),
       set_items items false t = Ok t' ->
       exists ids, section_lines t' = map workshop_line ids /\ ascending ids).
Proof.
  intros H.
  destruct (H slot_order [1; 8] [] _ eq_refl) as (ids & Hlines & Hasc).
  assert (Hids : Ok ids = Ok [8; 1]).
  { rewrite <- (existing_items_unguarded_written ids), <- Hlines. reflexivity. }
  injection Hids as ->.
  inversion Hasc as [| |x y l Hlt _]; subst. lia.
Qed.

(** C7 (what the code does): on a table whose subscription lines that
    hold an ['='] all carry an integer, MERGE succeeds and the IDs stored
    afterwards are exactly the given IDs together with the IDs stored
    before, one line each and none twice. In particular REPLACE with 1, 2
    followed by MERGE with 2, 3 stores exactly 1, 2 and 3. *)
Theorem set_items_merge_is_union :
  forall (order : SetOrder) items t existing,
    stored_items t = Ok existing ->
    (exists t' ids,
        set_items items true t = Ok t'
        /\ section_lines t' = map workshop_line ids
        /\ stored_items t' = Ok ids
        /\ NoDup ids
        /\ (forall x, In x ids <-> In x items \/ In x existing))
    /\ (exists t1 t2 ids,
           set_items [1; 2] false t = Ok t1
           /\ set_items [2; 3] true t1 = Ok t2
           /\ section_lines t2 = map workshop_line ids
           /\ stored_items t2 = Ok ids
           /\ NoDup ids
           /\ (forall x, In x ids <-> x = 1 \/ x = 2 \/ x = 3)).
Proof.
  intros order items t existing Hex.
  assert (Hmerge : forall items u stored,
    stored_items u = Ok stored ->
    exists u' ids,
      set_items items true u = Ok u'
      /\ section_lines u' = map workshop_line ids
      /\ stored_items u' = Ok ids
      /\ NoDup ids
      /\ (forall x, In x ids <-> In x items \/ In x stored)).
  { intros items0 u stored Hu.
    destruct (set_items_writes order items0 true u stored Hu) as (u' & H1 & H2 & H3 & _).
    exists u', (set_iter (items0 ++ stored)). repeat (split; [assumption|]).
    split; [apply set_iter_NoDup|].
    intros x. rewrite set_iter_In. apply in_app_iff. }
  split; [exact (Hmerge items t existing Hex)|].
  destruct (set_items_writes order [1; 2] false t existing Hex) as (t1 & Ht1 & _ & Hst1 & _).
  destruct (Hmerge [2; 3] t1 _ Hst1) as (t2 & ids & Ht2 & Hl2 & Hst2 & Hnd & Hin2).
  exists t1, t2, ids. repeat (split; [assumption|]).
  intros x. rewrite Hin2, set_iter_In. simpl. intuition lia.
Qed.

Definition two_stored : table :=
  [ ("[Engine]", ["x=1"]);
    (_workshop_section_key,
     ["ServerSubscribedWorkshopItems=7"; "ServerSubscribedWorkshopItems=5"]) ].

Lemma set_items_merge_is_union_witness :
  (exists t' ids,
      @set_items slot_order [5; 9] true two_stored = Ok t'
      /\ section_lines t' = map workshop_line ids
      /\ stored_items t' = Ok ids
      /\ NoDup ids
      /\ (forall x, In x ids <-> In x [5; 9] \/ In x [7; 5]))
  /\ (exists t1 t2 ids,
         @set_items slot_order [1; 2] false two_stored = Ok t1
         /\ @set_items slot_order [2; 3] true t1 = Ok t2
         /\ section_lines t2 = map workshop_line ids
         /\ stored_items t2 = Ok ids
         /\ NoDup ids
         /\ (forall x, In x ids <-> x = 1 \/ x = 2 \/ x = 3)).
Proof.
  apply (set_items_merge_is_union slot_order [5; 9] two_stored [7; 5]). reflexivity.
Defined.

(** C7 as stated fails: not for every table. On a section holding a
    line with an ['='] and no integer after it, MERGE raises and stores
    no union. *)
Lemma set_items_merge_malformed_raises :
  stored_items [(_workshop_section_key, ["ServerSubscribedWorkshopItems=abc"])]
  = Raise ValueError
  /\ @set_items slot_order [2; 3] true
       [(_workshop_section_key, ["ServerSubscribedWorkshopItems=abc"])]
     = Raise ValueError.
Proof. split; reflexivity. Qed.

(** C5 (what the code does): [set_workshop_items] skips the lines that
    hold no ['=']; they never make it fail. It succeeds exactly when every
    line that holds an ['='] carries an integer between its first ['=']
    and the next one (or the end of the line); when it fails, the
    exception is the [ValueError] of [int()]. *)
Theorem set_items_fails_only_on_non_integer :
  forall (order : SetOrder) items append t,
    ((exists t', set_items items append t = Ok t')
     <-> (forall line, In line (section_lines t) ->
            str_contains "="%char line = true -> exists n, item_of_line line = Ok n))
    /\ (forall e, set_items items append t = Raise e -> e = ValueError).
Proof.
  intros order items append t. rewrite set_items_unfold. unfold stored_items.
  split; [split|].
  - intros (t' & H) line Hin Heq.
    assert (Hex : exists ys, existing_items_guarded (section_lines t) = Ok ys).
    { destruct (existing_items_guarded (section_lines t)) as [ys|e];
        [exists ys; reflexivity|discriminate H]. }
    apply (proj1 (map_result_Ok_iff _ _ _ _) Hex).
    apply filter_In. tauto.
  - intros H.
    destruct (proj2 (map_result_Ok_iff _ _ item_of_line
                       (filter (str_contains "="%char) (section_lines t)))) as (ys & Hys).
    + intros x Hx. apply filter_In in Hx. destruct Hx as [Hin Heq]. exact (H x Hin Heq).
    + unfold existing_items_guarded. rewrite Hys. simpl. eexists. reflexivity.
  - intros e H.
    destruct (existing_items_guarded (section_lines t)) as [ys|e'] eqn:E;
      [discriminate H|].
    simpl in H. injection H as ->.
    apply map_result_Raise in E. destruct E as (line & Hin & Hline).
    apply filter_In in Hin. destruct Hin as [_ Heq].
    exact (item_of_line_ValueError line e Heq Hline).
Qed.

(** C5 as stated fails: a line with an ['='] and no integer after it
    makes [set_workshop_items] raise. *)
Lemma set_items_malformed_line_raises :
  @set_items slot_order [1] false
    [(_workshop_section_key, ["ServerSubscribedWorkshopItems=abc"])]
  = Raise ValueError.
Proof. reflexivity. Qed.

(** C6 (what the code does): on a table whose subscription section
    parses, [remove_workshop_items] with [None] deletes the section and
    leaves every other section as it was; with a collection, empty or
    not, it keeps the section, and the IDs stored afterwards are exactly
    the IDs stored before that are not in the collection, in their
    order. With the empty collection that is all of them. *)
Theorem remove_items_none_or_collection :
  forall t lines existing,
    dict_lookup _workshop_section_key t = Some lines ->
    existing_items_unguarded lines = Ok existing ->
    (exists t',
        remove_items None t = Ok t'
        /\ dict_lookup _workshop_section_key t' = None
        /\ (forall k, k <> _workshop_section_key -> dict_lookup k t' = dict_lookup k t))
    /\ (forall items, exists t',
           remove_items (Some items) t = Ok t'
           /\ dict_lookup _workshop_section_key t'
              = Some (map workshop_line
                        (filter (fun item => negb (mem item items)) existing))
           /\ existing_items_unguarded (section_lines t')
              = Ok (filter (fun item => negb (mem item items)) existing)
           /\ (forall k, k <> _workshop_section_key -> dict_lookup k t' = dict_lookup k t))
    /\ (exists t',
           remove_items (Some []) t = Ok t'
           /\ existing_items_unguarded (section_lines t') = Ok existing).
Proof.
  intros t lines existing Hl Hex.
  assert (Hsl : section_lines t = lines) by (unfold section_lines; rewrite Hl; reflexivity).
  assert (Hsome : forall items, exists t',
           remove_items (Some items) t = Ok t'
           /\ dict_lookup _workshop_section_key t'
              = Some (map workshop_line
                        (filter (fun item => negb (mem item items)) existing))
           /\ existing_items_unguarded (section_lines t')
              = Ok (filter (fun item => negb (mem item items)) existing)
           /\ (forall k, k <> _workshop_section_key -> dict_lookup k t' = dict_lookup k t)).
  { intros items. rewrite remove_items_unfold, Hsl, Hex. simpl bind.
    eexists. split; [reflexivity|].
    split; [apply dict_lookup_set_same|].
    split; [rewrite section_lines_set; apply existing_items_unguarded_written|].
    intros k Hk. apply dict_lookup_set_other. congruence. }
  split; [|split; [exact Hsome|]].
  - rewrite remove_items_unfold, Hsl, Hex. simpl bind.
    eexists. split; [reflexivity|]. split.
    + rewrite dict_lookup_remove, String.eqb_refl. reflexivity.
    + intros k Hk. rewrite dict_lookup_remove.
      apply not_eq_sym in Hk. apply String.eqb_neq in Hk. rewrite Hk. reflexivity.
  - destruct (Hsome []) as (t' & Ht' & _ & Hst & _).
    exists t'. split; [exact Ht'|]. rewrite Hst. f_equal.
    apply filter_all. intros x _. reflexivity.
Qed.

Lemma remove_items_none_or_collection_witness :
  (exists t',
      remove_items None two_stored = Ok t'
      /\ dict_lookup _workshop_section_key t' = None
      /\ (forall k, k <> _workshop_section_key ->
                    dict_lookup k t' = dict_lookup k two_stored))
  /\ (forall items, exists t',
         remove_items (Some items) two_stored = Ok t'
         /\ dict_lookup _workshop_section_key t'
            = Some (map workshop_line (filter (fun item => negb (mem item items)) [7; 5]))
         /\ existing_items_unguarded (section_lines t')
            = Ok (filter (fun item => negb (mem item items)) [7; 5])
         /\ (forall k, k <> _workshop_section_key ->
                       dict_lookup k t' = dict_lookup k two_stored))
  /\ (exists t',
         remove_items (Some []) two_stored = Ok t'
         /\ existing_items_unguarded (section_lines t') = Ok [7; 5]).
Proof.
  apply (remove_items_none_or_collection two_stored
           ["ServerSubscribedWorkshopItems=7"; "ServerSubscribedWorkshopItems=5"] [7; 5]);
    reflexivity.
Defined.

(** C6 as stated fails: called with the empty collection,
    [remove_workshop_items] does not delete the section. *)
Lemma remove_items_empty_keeps_section :
  exists t',
    remove_items (Some []) two_stored = Ok t'
    /\ dict_lookup _workshop_section_key t'
       = Some ["ServerSubscribedWorkshopItems=7"; "ServerSubscribedWorkshopItems=5"].
Proof. eexists. split; reflexivity. Qed.

End Subscription.

(* ================================================================== *)
(** ** Clearing the cache *)
(* ================================================================== *)

Section Cache.
Import Py KF2.

Lemma str_in_In : forall s l, str_in s l = true <-> In s l.
Proof.
  intros s l. unfold str_in. rewrite existsb_exists. split.
  - intros (x & Hx & E). apply String.eqb_eq in E. subst x. exact Hx.
  - intros H. exists s. split; [exact H|apply String.eqb_refl].
Qed.

(** An entry is protected when its name is one of the IDs. *)
Definition protected (ids : list string) (e : cache_entry) : bool :=
  str_in (entry_name e) ids.

(** The loop gets past an entry it skips or can delete. *)
Definition passable (ids : list string) (e : cache_entry) : bool :=
  protected ids e || deletable e.

(** Deleted by name: the entry has the name of an unprotected entry of
    [listing]. *)
Definition named_in (ids : list string) (listing : list cache_entry) (x : cache_entry) : bool :=
  existsb (fun e => negb (protected ids e) && String.eqb (entry_name x) (entry_name e)) listing.

(** While every entry of the listing is passable, the loop ends without
    an exception and has deleted the unprotected names of the listing. *)
Lemma clear_loop_passes : forall ids listing cache,
  forallb (passable ids) listing = true ->
  clear_loop ids listing cache
  = (filter (fun x => negb (named_in ids listing x)) cache, None).
Proof.
  intros ids listing.
  induction listing as [|x listing IH]; intros cache H.
  - cbn [clear_loop named_in existsb negb]. rewrite filter_all; [reflexivity|].
    intros; reflexivity.
  - cbn [forallb] in H. apply andb_true_iff in H. destruct H as [Hx Hl].
    cbn [clear_loop]. unfold passable, protected in Hx.
    destruct (str_in (entry_name x) ids) eqn:Ep.
    + rewrite (IH cache Hl). f_equal. apply filter_ext. intros y.
      unfold named_in. cbn [existsb]. unfold protected. rewrite Ep. reflexivity.
    + cbn [orb] in Hx. unfold rmtree. rewrite Hx. rewrite (IH _ Hl). f_equal.
      rewrite filter_filter_and. apply filter_ext. intros y.
      unfold named_in. cbn [existsb]. unfold protected. rewrite Ep.
      cbn [negb andb]. rewrite negb_orb. reflexivity.
Qed.

(** At the first entry that is not passable the loop ends with the
    exception of [rmtree]; the directory is as the entries before left
    it. *)
Lemma clear_loop_stops : forall ids pre f post cache,
  forallb (passable ids) pre = true ->
  passable ids f = false ->
  clear_loop ids (pre ++ f :: post) cache
  = (filter (fun x => negb (named_in ids pre x)) cache, Some OSError).
Proof.
  intros ids pre f post.
  induction pre as [|x pre IH]; intros cache H Hf.
  - unfold passable, protected in Hf. apply orb_false_iff in Hf. destruct Hf as [Hp Hd].
    cbn [app clear_loop]. rewrite Hp. unfold rmtree. rewrite Hd.
    cbn [named_in existsb negb]. rewrite filter_all; [reflexivity|]. intros; reflexivity.
  - cbn [forallb] in H. apply andb_true_iff in H. destruct H as [Hx Hl].
    cbn [app clear_loop]. unfold passable, protected in Hx.
    destruct (str_in (entry_name x) ids) eqn:Ep.
    + rewrite (IH cache Hl Hf). f_equal. apply filter_ext. intros y.
      unfold named_in. cbn [existsb]. unfold protected. rewrite Ep. reflexivity.
    + cbn [orb] in Hx. unfold rmtree. rewrite Hx. rewrite (IH _ Hl Hf). f_equal.
      rewrite filter_filter_and. apply filter_ext. intros y.
      unfold named_in. cbn [existsb]. unfold protected. rewrite Ep.
      cbn [negb andb]. rewrite negb_orb. reflexivity.
Qed.

(** Every listing is passable throughout, or has a first entry that is
    not. *)
Lemma first_not_passable : forall ids listing,
  forallb (passable ids) listing = true
  \/ exists pre f post,
       listing = pre ++ f :: post
       /\ forallb (passable ids) pre = true
       /\ passable ids f = false.
Proof.
  intros ids listing. induction listing as [|x listing IH]; [left; reflexivity|].
  destruct (passable ids x) eqn:Ex.
  - destruct IH as [IH|(pre & f & post & E & Hp & Hf)].
    + left. cbn [forallb]. rewrite Ex, IH. reflexivity.
    + right. exists (x :: pre), f, post. split; [rewrite E; reflexivity|].
      split; [cbn [forallb]; rewrite Ex, Hp; reflexivity|exact Hf].
  - right. exists [], x, listing. split; [reflexivity|]. split; [reflexivity|exact Ex].
Qed.

(** A protected entry has the name of no unprotected one. *)
Lemma protected_not_named_in : forall ids listing x,
  protected ids x = true -> named_in ids listing x = false.
Proof.
  intros ids listing x Hx. unfold named_in.
  destruct (existsb _ listing) eqn:Ex; [|reflexivity].
  apply existsb_exists in Ex. destruct Ex as (e & _ & He).
  apply andb_true_iff in He. destruct He as [Hn He].
  apply String.eqb_eq in He. unfold protected in *. rewrite <- He, Hx in Hn.
  discriminate Hn.
Qed.

(** An unprotected entry of the listing is deleted by its own name. *)
Lemma unprotected_named_in : forall ids listing x,
  In x listing -> protected ids x = false -> named_in ids listing x = true.
Proof.
  intros ids listing x Hin Hx. unfold named_in. apply existsb_exists.
  exists x. split; [exact Hin|]. rewrite Hx, String.eqb_refl. reflexivity.
Qed.

(** Within the listing, deleting the unprotected names keeps the
    protected entries. *)
Lemma filter_named_in_own : forall ids listing,
  filter (fun x => negb (named_in ids listing x)) listing = filter (protected ids) listing.
Proof.
  intros ids listing. apply filter_ext_in. intros x Hx.
  destruct (protected ids x) eqn:E.
  - rewrite (protected_not_named_in ids listing x E). reflexivity.
  - rewrite (unprotected_named_in ids listing x Hx E). reflexivity.
Qed.

(** Run over the cache's own listing with every entry passable, the loop
    keeps the protected entries and raises nothing. *)
Lemma clear_loop_keeps_ids : forall ids cache,
  forallb (passable ids) cache = true ->
  clear_loop ids cache cache = (filter (protected ids) cache, None).
Proof.
  intros ids cache H. rewrite (clear_loop_passes ids cache cache H).
  rewrite filter_named_in_own. reflexivity.
Qed.

(** An entry whose name no entry of [pre] has is not deleted with
    them. *)
Lemma fresh_not_named_in : forall ids pre x,
  ~ In (entry_name x) (map entry_name pre) -> named_in ids pre x = false.
Proof.
  intros ids pre x H. unfold named_in.
  destruct (existsb _ pre) eqn:Ex; [|reflexivity].
  apply existsb_exists in Ex. destruct Ex as (e & He & Hb).
  apply andb_true_iff in Hb. destruct Hb as [_ Hb]. apply String.eqb_eq in Hb.
  exfalso. apply H. rewrite Hb. apply in_map. exact He.
Qed.

(** Run over the cache's own listing, no two entries with one name: at
    the first entry that is not passable the loop has deleted the
    unprotected entries before it, and this entry and those after it are
    all there. *)
Lemma clear_loop_stops_own : forall ids pre f post,
  NoDup (map entry_name (pre ++ f :: post)) ->
  forallb (passable ids) pre = true ->
  passable ids f = false ->
  clear_loop ids (pre ++ f :: post) (pre ++ f :: post)
  = (filter (protected ids) pre ++ f :: post, Some OSError).
Proof.
  intros ids pre f post Hnd Hp Hf.
  rewrite (clear_loop_stops ids pre f post _ Hp Hf). f_equal.
  rewrite filter_app, filter_named_in_own. f_equal.
  apply filter_all. intros x Hx. apply negb_true_iff. apply fresh_not_named_in.
  rewrite map_app in Hnd. revert Hnd Hx. clear.
  induction pre as [|p pre IH]; intros Hnd Hx; [intros []|].
  cbn [map app] in Hnd. apply NoDup_cons_iff in Hnd. destruct Hnd as [Hnot Hnd].
  cbn [map]. intros [E|Hin].
  - apply Hnot. rewrite E. apply in_or_app. right.
    change (entry_name f :: map entry_name post) with (map entry_name (f :: post)).
    apply in_map. exact Hx.
  - exact (IH Hnd Hx Hin).
Qed.

(** The loop removes no protected entry, whatever the listing. *)
Lemma clear_loop_safe : forall ids listing cache e,
  In e cache -> protected ids e = true -> In e (fst (clear_loop ids listing cache)).
Proof.
  intros ids listing cache e Hin Hp.
  destruct (first_not_passable ids listing) as [H|(pre & f & post & E & H & Hf)].
  - rewrite (clear_loop_passes ids listing cache H). cbn [fst].
    apply filter_In. split; [exact Hin|].
    rewrite (protected_not_named_in ids listing e Hp). reflexivity.
  - rewrite E, (clear_loop_stops ids pre f post cache H Hf). cbn [fst].
    apply filter_In. split; [exact Hin|].
    rewrite (protected_not_named_in ids pre e Hp). reflexivity.
Qed.

(** The loop adds no entry. *)
Lemma clear_loop_incl : forall ids listing cache e,
  In e (fst (clear_loop ids listing cache)) -> In e cache.
Proof.
  intros ids listing cache e.
  destruct (first_not_passable ids listing) as [H|(pre & f & post & E & H & Hf)].
  - rewrite (clear_loop_passes ids listing cache H). cbn [fst].
    intros Hin. apply filter_In in Hin. exact (proj1 Hin).
  - rewrite E, (clear_loop_stops ids pre f post cache H Hf). cbn [fst].
    intros Hin. apply filter_In in Hin. exact (proj1 Hin).
Qed.

(** The loop raises nothing exactly when every entry of the listing is
    passable. *)
Lemma clear_loop_None : forall ids listing cache,
  snd (clear_loop ids listing cache) = None <-> forallb (passable ids) listing = true.
Proof.
  intros ids listing cache.
  destruct (first_not_passable ids listing) as [H|(pre & f & post & E & H & Hf)].
  - rewrite (clear_loop_passes ids listing cache H). cbn [snd]. tauto.
  - rewrite E, (clear_loop_stops ids pre f post cache H Hf). cbn [snd].
    split; [discriminate|]. intros Hall. rewrite forallb_app in Hall.
    apply andb_true_iff in Hall. destruct Hall as [_ Hall]. cbn [forallb] in Hall.
    rewrite Hf in Hall. discriminate Hall.
Qed.

Lemma passable_all : forall ids cache,
  forallb (passable ids) cache = true
  <-> (forall e, In e cache -> protected ids e = false -> deletable e = true).
Proof.
  intros ids cache. rewrite forallb_forall. unfold passable. split.
  - intros H e Hin Hp. specialize (H e Hin). rewrite Hp in H. exact H.
  - intros H e Hin. destruct (protected ids e) eqn:Hp; [reflexivity|]. exact (H e Hin Hp).
Qed.

Lemma digit_run_all : forall s, all_chars is_digit s = true -> digit_run s = s.
Proof.
  induction s as [|c r IH]; simpl; [reflexivity|].
  intros H. apply andb_true_iff in H. destruct H as [Hc Hr].
  rewrite Hc, (IH Hr). reflexivity.
Qed.

Lemma re_number_search_skip : forall p s,
  all_chars (fun c => negb (is_digit c)) p = true ->
  re_number_search (p +++ s) = re_number_search s.
Proof.
  induction p as [|c r IH]; intros s H; [reflexivity|].
  simpl in H. apply andb_true_iff in H. destruct H as [Hc Hr].
  apply negb_true_iff in Hc.
  change (String c r +++ s) with (String c (r +++ s)).
  cbn [re_number_search]. rewrite Hc. exact (IH s Hr).
Qed.

(** In a line the program wrote for a non-negative ID, the first run of
    digits is the ID's text. *)
Lemma re_number_search_workshop_line : forall item,
  0 <= item -> re_number_search (workshop_line item) = Some (str_of_int item).
Proof.
  intros item H. unfold workshop_line.
  rewrite re_number_search_skip by reflexivity.
  destruct (str_of_int_digits item H) as (c & r & E & Hc & Hr). rewrite E.
  cbn [re_number_search digit_run]. rewrite Hc, (digit_run_all r Hr). reflexivity.
Qed.

Lemma map_ids_written : forall items,
  (forall item, In item items -> 0 <= item) ->
  map_ids (map workshop_line items) = map str_of_int items.
Proof.
  induction items as [|i items IH]; intros H; [reflexivity|].
  cbn [map map_ids].
  rewrite (re_number_search_workshop_line i (H i (or_introl eq_refl))).
  rewrite IH; [reflexivity|]. intros j Hj. apply H. right. exact Hj.
Qed.



(** A subscription to 12 and 7, and a cache directory with the trees of
    7, 8 and 12 and a file [tmp]. *)
Definition listed_12_7 : table :=
  [ (_workshop_section_key, map workshop_line [12; 7]) ].

Definition cache_with_file : list cache_entry :=
  [ {| entry_name := "7"; deletable := true |};
    {| entry_name := "8"; deletable := true |};
    {| entry_name := "12"; deletable := true |};
    {| entry_name := "tmp"; deletable := false |} ].



End Cache.

(* ================================================================== *)
(** ** Writing a table and reading it back *)
(* ================================================================== *)

Section RoundTrip.
Import Py KF2.

(** A line of a well-formed table: not empty, no line feed in it. *)
Definition no_LF (s : string) : bool := all_chars (fun c => negb (Ascii.eqb c LF)) s.

Definition line_ok (s : string) : bool := negb (String.eqb s EmptyString) && no_LF s.

(** A well-formed table: no header twice, and every header and every
    body line is a line. *)
Definition well_formed (t : table) : Prop :=
  NoDup (keys t)
  /\ Forall (fun kv => line_ok (fst kv) = true
                       /\ Forall (fun line => line_ok line = true) (snd kv)) t.

(** The table with an empty line added to the body of its last section. *)
Fixpoint with_trailing_blank (t : table) : table :=
  match t with
  | [] => []
  | kv :: r =>
      match r with
      | [] => [(fst kv, snd kv ++ [EmptyString])]
      | _ :: _ => kv :: with_trailing_blank r
      end
  end.

(** *** Strings *)

Lemma append_assoc : forall a b c, (a +++ b) +++ c = a +++ (b +++ c).
Proof.
  induction a as [|x a IH]; intros b c; simpl; [reflexivity|].
  rewrite IH. reflexivity.
Qed.

Lemma append_nil_r : forall a, a +++ EmptyString = a.
Proof. induction a as [|x a IH]; simpl; [reflexivity|]. rewrite IH. reflexivity. Qed.

Lemma line_ok_first : forall s,
  line_ok s = true -> exists c r, s = String c r /\ Ascii.eqb c LF = false /\ no_LF r = true.
Proof.
  intros s H. unfold line_ok in H. apply andb_true_iff in H. destruct H as [Hne Hc].
  destruct s as [|c r]; [discriminate Hne|].
  unfold no_LF in Hc. simpl in Hc. apply andb_true_iff in Hc. destruct Hc as [Hc Hr].
  apply negb_true_iff in Hc. exists c, r. auto.
Qed.

Lemma line_ok_no_LF : forall s, line_ok s = true -> no_LF s = true.
Proof. intros s H. unfold line_ok in H. apply andb_true_iff in H. tauto. Qed.

(** [join] over a list that goes on. *)
Lemma join_cons : forall x y ys,
  join newline (x :: y :: ys) = x +++ newline +++ join newline (y :: ys).
Proof. reflexivity. Qed.

Lemma join_app_one : forall xs x,
  join newline ((x :: xs) ++ [EmptyString]) = join newline (x :: xs) +++ newline.
Proof.
  induction xs as [|y ys IH]; intros x.
  - reflexivity.
  - change ((x :: y :: ys) ++ [EmptyString]) with (x :: ((y :: ys) ++ [EmptyString])).
    destruct ((y :: ys) ++ [EmptyString]) as [|z zs] eqn:E; [discriminate E|].
    rewrite join_cons, <- E, IH, join_cons, !append_assoc. reflexivity.
Qed.

Lemma join_app : forall xs x y ys,
  join newline ((x :: xs) ++ y :: ys)
  = join newline (x :: xs) +++ newline +++ join newline (y :: ys).
Proof.
  induction xs as [|z zs IH]; intros x y ys.
  - reflexivity.
  - change ((x :: z :: zs) ++ y :: ys) with (x :: ((z :: zs) ++ y :: ys)).
    destruct ((z :: zs) ++ y :: ys) as [|w ws] eqn:E; [discriminate E|].
    rewrite join_cons, <- E, IH, join_cons, !append_assoc. reflexivity.
Qed.

(** *** [str.split] on the text of a section *)

Lemma str_split_line : forall l rest,
  no_LF l = true -> str_split LF (l +++ String LF rest) = l :: str_split LF rest.
Proof.
  induction l as [|c r IH]; intros rest H.
  - reflexivity.
  - unfold no_LF in H. simpl in H. apply andb_true_iff in H. destruct H as [Hc Hr].
    apply negb_true_iff in Hc.
    change (String c r +++ String LF rest) with (String c (r +++ String LF rest)).
    cbn [str_split]. rewrite Hc, (IH rest Hr). reflexivity.
Qed.

Lemma str_split_join : forall lines h,
  no_LF h = true -> Forall (fun l => no_LF l = true) lines ->
  str_split LF (join newline (h :: lines)) = h :: lines.
Proof.
  induction lines as [|l lines IH]; intros h Hh Hl.
  - simpl. apply str_split_without_sep. exact Hh.
  - inversion Hl as [|? ? Hl1 Hl2]; subst.
    rewrite join_cons. unfold newline at 1.
    change (String LF EmptyString +++ join newline (l :: lines))
      with (String LF (join newline (l :: lines))).
    rewrite (str_split_line h _ Hh), (IH l Hl1 Hl2). reflexivity.
Qed.

(** *** [re.split] on the text of a table *)

(** Puts a text in front of the first string of a list. *)
Definition prepend (l : string) (xs : list string) : list string :=
  match xs with
  | [] => [l]
  | x :: r => (l +++ x) :: r
  end.

Lemma re_split_blank_aux_not_nil : forall s b, re_split_blank_aux b s <> [].
Proof.
  induction s as [|c r IH]; intros b; simpl; [discriminate|].
  destruct (Ascii.eqb c LF).
  - destruct b; [apply IH|].
    destruct r as [|c2 r2]; [discriminate|].
    destruct (Ascii.eqb c2 LF); [discriminate|].
    specialize (IH false). destruct (re_split_blank_aux false (String c2 r2));
      [contradiction|discriminate].
  - specialize (IH false). destruct (re_split_blank_aux false r);
      [contradiction|discriminate].
Qed.

Lemma prepend_cons_head : forall c l xs,
  xs <> [] -> cons_head c (prepend l xs) = prepend (String c l) xs.
Proof. intros c l [|x r] H; [contradiction|reflexivity]. Qed.

(** Characters that are not line feeds go to the current section. *)
Lemma re_split_blank_chars : forall l rest,
  no_LF l = true ->
  re_split_blank_aux false (l +++ rest) = prepend l (re_split_blank_aux false rest).
Proof.
  induction l as [|c r IH]; intros rest H.
  - simpl. pose proof (re_split_blank_aux_not_nil rest false) as Hn.
    destruct (re_split_blank_aux false rest); [contradiction|reflexivity].
  - unfold no_LF in H. simpl in H. apply andb_true_iff in H. destruct H as [Hc Hr].
    apply negb_true_iff in Hc.
    change (String c r +++ rest) with (String c (r +++ rest)).
    cbn [re_split_blank_aux]. rewrite Hc, (IH rest Hr).
    apply prepend_cons_head. apply re_split_blank_aux_not_nil.
Qed.

(** One line feed before a character of a line stays in the section. *)
Lemma re_split_blank_single : forall c r,
  Ascii.eqb c LF = false ->
  re_split_blank_aux false (String LF (String c r))
  = cons_head LF (re_split_blank_aux false (String c r)).
Proof.
  intros c r Hc. cbn [re_split_blank_aux].
  replace (Ascii.eqb LF LF) with true by reflexivity. rewrite Hc. reflexivity.
Qed.

(** Two line feeds before a character of a line end the section. *)
Lemma re_split_blank_double : forall c r,
  Ascii.eqb c LF = false ->
  re_split_blank_aux false (String LF (String LF (String c r)))
  = EmptyString :: re_split_blank_aux false (String c r).
Proof.
  intros c r Hc. cbn [re_split_blank_aux].
  replace (Ascii.eqb LF LF) with true by reflexivity. rewrite Hc. reflexivity.
Qed.

(** The text of one section: its header and body lines, one per line. *)
Definition section_text (kv : string * list string) : string :=
  join newline (fst kv :: snd kv).

Definition lines_ok (kv : string * list string) : Prop :=
  line_ok (fst kv) = true /\ Forall (fun line => line_ok line = true) (snd kv).

Lemma section_text_first : forall kv,
  lines_ok kv ->
  exists c r, section_text kv = String c r /\ Ascii.eqb c LF = false.
Proof.
  intros [h lines] [Hh _]. simpl in Hh. unfold section_text. simpl fst. simpl snd.
  destruct (line_ok_first h Hh) as (c & r & -> & Hc & _).
  destruct lines as [|l lines].
  - exists c, r. split; [reflexivity|exact Hc].
  - rewrite join_cons. exists c. eexists. split; [reflexivity|exact Hc].
Qed.

(** A section's text is read into one section, whatever follows it. *)
Lemma re_split_blank_section : forall lines h tail,
  line_ok h = true -> Forall (fun line => line_ok line = true) lines ->
  re_split_blank_aux false (join newline (h :: lines) +++ tail)
  = prepend (join newline (h :: lines)) (re_split_blank_aux false tail).
Proof.
  induction lines as [|l lines IH]; intros h tail Hh Hl.
  - apply re_split_blank_chars. apply line_ok_no_LF. exact Hh.
  - inversion Hl as [|? ? Hl1 Hl2]; subst.
    rewrite join_cons, !append_assoc.
    rewrite (re_split_blank_chars h _ (line_ok_no_LF h Hh)).
    destruct (section_text_first (l, lines) (conj Hl1 Hl2)) as (c & r & E & Hc).
    unfold section_text in E. simpl fst in E. simpl snd in E.
    change (newline +++ join newline (l :: lines) +++ tail)
      with (String LF (join newline (l :: lines) +++ tail)).
    pose proof (IH l tail Hl1 Hl2) as IH'. rewrite E in *.
    change (String c r +++ tail) with (String c (r +++ tail)) in *.
    rewrite (re_split_blank_single c _ Hc), IH'.
    pose proof (re_split_blank_aux_not_nil tail false) as Hn.
    destruct (re_split_blank_aux false tail) as [|x xs]; [contradiction|].
    simpl. rewrite !append_assoc. reflexivity.
Qed.

Lemma lines_of_table_cons : forall kv r,
  lines_of_table (kv :: r) = (fst kv :: snd kv) ++ EmptyString :: lines_of_table r.
Proof.
  intros kv r. unfold lines_of_table. simpl.
  rewrite <- app_assoc. reflexivity.
Qed.

(** The file: every section's text and a line feed, a blank line between
    two sections. *)
Lemma content_of_table_cons : forall kv r,
  content_of_table (kv :: r)
  = section_text kv +++ newline
    +++ match r with
        | [] => EmptyString
        | _ :: _ => newline +++ content_of_table r
        end.
Proof.
  intros kv r. unfold content_of_table. rewrite lines_of_table_cons, join_app.
  unfold section_text. do 2 f_equal.
  destruct r as [|kv' r]; [reflexivity|].
  rewrite lines_of_table_cons. reflexivity.
Qed.

Lemma content_of_table_first : forall kv r,
  lines_ok kv ->
  exists c s, content_of_table (kv :: r) = String c s /\ Ascii.eqb c LF = false.
Proof.
  intros kv r H. rewrite content_of_table_cons.
  destruct (section_text_first kv H) as (c & s & -> & Hc).
  exists c. eexists. split; [reflexivity|exact Hc].
Qed.

(** The sections [re.split] finds in the file written for a table. *)
Fixpoint sections_of (t : table) : list string :=
  match t with
  | [] => []
  | kv :: r =>
      match r with
      | [] => [section_text kv +++ newline]
      | _ :: _ => section_text kv :: sections_of r
      end
  end.

Lemma re_split_blank_content : forall t,
  Forall lines_ok t -> t <> [] ->
  re_split_blank (content_of_table t) = sections_of t.
Proof.
  unfold re_split_blank.
  induction t as [|kv r IH]; intros Hok Hne; [contradiction|].
  inversion Hok as [|? ? Hkv Hr]; subst.
  rewrite content_of_table_cons. destruct Hkv as [Hh Hl].
  unfold section_text at 1.
  rewrite (re_split_blank_section (snd kv) (fst kv) _ Hh Hl).
  fold (section_text kv).
  destruct r as [|kv' r'].
  - reflexivity.
  - inversion Hr as [|? ? Hkv' _]; subst.
    destruct (content_of_table_first kv' r' Hkv') as (c & s & E & Hc).
    pose proof (IH Hr ltac:(discriminate)) as IH'. rewrite E in *.
    change (newline +++ newline +++ String c s)
      with (String LF (String LF (String c s))).
    rewrite (re_split_blank_double c s Hc), IH'.
    cbn [prepend sections_of]. rewrite append_nil_r. reflexivity.
Qed.

Lemma lines_no_LF : forall lines,
  Forall (fun line => line_ok line = true) lines ->
  Forall (fun l => no_LF l = true) lines.
Proof.
  intros lines H. eapply Forall_impl; [|exact H].
  intros l Hl. apply line_ok_no_LF. exact Hl.
Qed.

Lemma add_section_text : forall acc kv,
  lines_ok kv -> add_section acc (section_text kv) = dict_set (fst kv) (snd kv) acc.
Proof.
  intros acc kv [Hh Hl]. unfold add_section, section_text.
  rewrite (str_split_join (snd kv) (fst kv) (line_ok_no_LF _ Hh) (lines_no_LF _ Hl)).
  reflexivity.
Qed.

Lemma add_section_text_newline : forall acc kv,
  lines_ok kv ->
  add_section acc (section_text kv +++ newline)
  = dict_set (fst kv) (snd kv ++ [EmptyString]) acc.
Proof.
  intros acc kv [Hh Hl]. unfold add_section, section_text.
  rewrite <- join_app_one.
  change ((fst kv :: snd kv) ++ [EmptyString]) with (fst kv :: (snd kv ++ [EmptyString])).
  rewrite (str_split_join _ (fst kv) (line_ok_no_LF _ Hh)); [reflexivity|].
  apply Forall_app. split; [exact (lines_no_LF _ Hl)|]. repeat constructor.
Qed.

Lemma add_sections_of : forall t acc,
  Forall lines_ok t ->
  fold_left add_section (sections_of t) acc
  = fold_left (fun a kv => dict_set (fst kv) (snd kv) a) (with_trailing_blank t) acc.
Proof.
  induction t as [|kv r IH]; intros acc Hok; [reflexivity|].
  inversion Hok as [|? ? Hkv Hr]; subst.
  destruct r as [|kv' r'].
  - simpl. apply add_section_text_newline. exact Hkv.
  - change (sections_of (kv :: kv' :: r')) with (section_text kv :: sections_of (kv' :: r')).
    change (with_trailing_blank (kv :: kv' :: r'))
      with (kv :: with_trailing_blank (kv' :: r')).
    cbn [fold_left]. rewrite (add_section_text acc kv Hkv). apply IH. exact Hr.
Qed.

Lemma dict_set_fresh : forall (V : Type) (d : dict V) k v,
  ~ In k (keys d) -> dict_set k v d = d ++ [(k, v)].
Proof.
  intros V d k v. induction d as [|[k0 v0] d IH]; simpl; intros H; [reflexivity|].
  destruct (String.eqb k0 k) eqn:E.
  - apply String.eqb_eq in E. elim H. left. exact E.
  - rewrite IH; [reflexivity|]. intros Hin. apply H. right. exact Hin.
Qed.

(** Entries under fresh keys are set in their order. *)
Lemma fold_dict_set_fresh : forall (V : Type) (u acc : dict V),
  NoDup (keys (acc ++ u)) ->
  fold_left (fun a kv => dict_set (fst kv) (snd kv) a) u acc = acc ++ u.
Proof.
  intros V u. induction u as [|[k v] u IH]; intros acc H; simpl.
  - rewrite app_nil_r. reflexivity.
  - assert (Hk : ~ In k (keys acc)).
    { unfold keys in *. rewrite map_app in H. simpl in H.
      apply NoDup_remove_2 in H. intros Hin. apply H. apply in_or_app. left. exact Hin. }
    rewrite (dict_set_fresh V acc k v Hk), IH.
    + rewrite <- app_assoc. reflexivity.
    + rewrite <- app_assoc. exact H.
Qed.

Lemma keys_with_trailing_blank : forall t, keys (with_trailing_blank t) = keys t.
Proof.
  induction t as [|kv r IH]; [reflexivity|].
  destruct r as [|kv' r']; [reflexivity|].
  change (with_trailing_blank (kv :: kv' :: r'))
    with (kv :: with_trailing_blank (kv' :: r')).
  unfold keys in *. rewrite !(map_cons fst kv). f_equal. exact IH.
Qed.

Lemma with_trailing_blank_differs : forall t, t <> [] -> with_trailing_blank t <> t.
Proof.
  induction t as [|kv r IH]; intros Hne; [contradiction|].
  destruct r as [|kv' r'].
  - destruct kv as [h lines]. simpl. intros H. injection H as H.
    apply (f_equal (@List.length string)) in H. rewrite length_app in H. simpl in H. lia.
  - change (with_trailing_blank (kv :: kv' :: r'))
      with (kv :: with_trailing_blank (kv' :: r')).
    intros H. injection H as H. revert H. apply IH. discriminate.
Qed.

(** What reading back gives: for the empty table a table of one section
    with an empty header, otherwise the table with an empty line added to
    its last body. *)
Definition read_back (t : table) : table :=
  match t with
  | [] => [(EmptyString, [])]
  | _ :: _ => with_trailing_blank t
  end.

Lemma table_of_content_of_table : forall t,
  well_formed t -> table_of_content (content_of_table t) = read_back t.
Proof.
  intros t [Hnd Hok]. destruct t as [|kv r]; [reflexivity|].
  unfold table_of_content.
  rewrite (re_split_blank_content (kv :: r) Hok) by discriminate.
  rewrite (add_sections_of (kv :: r) [] Hok).
  rewrite fold_dict_set_fresh; [reflexivity|].
  rewrite app_nil_l, keys_with_trailing_blank. exact Hnd.
Qed.

(** C2 (what the code does): for every well-formed table [t], reading
    back the file written for [t] succeeds and gives [t] with an empty
    line added to the body of its last section (for the empty table: one
    section with an empty header and no body). That table is never [t]:
    the round trip fails on every well-formed table. *)
Theorem round_trip_adds_blank_line :
  forall (p : ini) (d : disk) (t : table),
    well_formed t ->
    read_ini_file_to_table p (write_table_to_ini_file p t d) = Ok (read_back t)
    /\ read_back t <> t.
Proof.
  intros p d t Hwf. split.
  - unfold read_ini_file_to_table, write_table_to_ini_file.
    destruct p; simpl; rewrite (table_of_content_of_table t Hwf); reflexivity.
  - destruct t as [|kv r]; [discriminate|].
    apply with_trailing_blank_differs. discriminate.
Qed.

Definition two_sections : table := [("[A]", ["x=1"]); ("[B]", ["y=2"; "z=3"])].

Definition empty_disk : disk :=
  {| game_ini := None; engine_ini := None; cache_dir := None |}.

Lemma round_trip_adds_blank_line_witness :
  read_ini_file_to_table GameIni (write_table_to_ini_file GameIni two_sections empty_disk)
  = Ok [("[A]", ["x=1"]); ("[B]", ["y=2"; "z=3"; EmptyString])]
  /\ read_back two_sections <> two_sections.
Proof.
  apply (round_trip_adds_blank_line GameIni empty_disk two_sections).
  split.
  - repeat constructor; simpl; intuition discriminate.
  - repeat constructor.
Defined.

End RoundTrip.

(* ================================================================== *)
(** ** Reading a file and writing it back *)
(* ================================================================== *)

Section ReadThenWrite.
Import Py KF2.

(** The separator the writer puts between two sections: one blank line. *)
Definition blank_line : string := newline +++ newline.

Lemma join_cons_head : forall c x xs,
  join newline (String c x :: xs) = String c (join newline (x :: xs)).
Proof. intros c x [|y ys]; reflexivity. Qed.

(** [split] then [join] on the same separator gives the text back. *)
Lemma join_str_split : forall s, join newline (str_split LF s) = s.
Proof.
  induction s as [|c r IH]; [reflexivity|].
  cbn [str_split]. destruct (Ascii.eqb c LF) eqn:E.
  - apply Ascii.eqb_eq in E. subst c.
    destruct (str_split LF r) as [|y ys] eqn:Er; [elim (str_split_not_nil _ _ Er)|].
    rewrite join_cons, IH. reflexivity.
  - destruct (str_split LF r) as [|y ys] eqn:Er; [elim (str_split_not_nil _ _ Er)|].
    cbn [cons_head]. rewrite join_cons_head, IH. reflexivity.
Qed.

Definition section_entry (section : string) : string * list string :=
  (section_header section, section_body section).

Lemma section_entry_lines : forall section,
  fst (section_entry section) :: snd (section_entry section) = str_split LF section.
Proof.
  intros section. unfold section_entry, section_header, section_body. simpl.
  destruct (str_split LF section) eqn:E; [elim (str_split_not_nil _ _ E)|reflexivity].
Qed.

Lemma add_sections_entries : forall sections acc,
  fold_left add_section sections acc
  = fold_left (fun a kv => dict_set (fst kv) (snd kv) a) (map section_entry sections) acc.
Proof.
  induction sections as [|s sections IH]; intros acc; [reflexivity|].
  cbn [fold_left map]. rewrite add_section_set. apply IH.
Qed.

Lemma re_split_blank_not_nil : forall c, re_split_blank c <> [].
Proof. intros c. apply re_split_blank_aux_not_nil. Qed.

Lemma join_sections : forall s sections,
  join newline (lines_of_table (map section_entry (s :: sections)))
  = join blank_line (s :: sections) +++ newline.
Proof.
  intros s sections. revert s.
  induction sections as [|s' sections IH]; intros s.
  - cbn [map]. unfold lines_of_table. cbn [flat_map]. rewrite app_nil_r.
    change (fst (section_entry s) :: snd (section_entry s) ++ [EmptyString])
      with ((fst (section_entry s) :: snd (section_entry s)) ++ [EmptyString]).
    rewrite join_app_one, section_entry_lines, join_str_split. reflexivity.
  - change (map section_entry (s :: s' :: sections))
      with (section_entry s :: map section_entry (s' :: sections)).
    rewrite lines_of_table_cons.
    destruct (lines_of_table (map section_entry (s' :: sections))) as [|y ys] eqn:E.
    + discriminate E.
    + rewrite join_app.
      change (join newline (EmptyString :: y :: ys)) with (newline +++ join newline (y :: ys)).
      rewrite <- E, IH, section_entry_lines, join_str_split.
      change (join blank_line (s :: s' :: sections))
        with (s +++ blank_line +++ join blank_line (s' :: sections)).
      unfold blank_line. rewrite !append_assoc. reflexivity.
Qed.

(** X1: Reading a file whose sections have different headers and writing the
    table back gives the sections of the file, in their order, one blank
    line between two of them and a line feed after the last: longer runs
    of blank lines are cut down to one, and a line feed is added at the
    end. *)
Theorem write_after_read_normalises :
  forall content,
    NoDup (map section_header (re_split_blank content)) ->
    content_of_table (table_of_content content)
    = join blank_line (re_split_blank content) +++ newline.
Proof.
  intros content Hnd. unfold table_of_content, content_of_table.
  rewrite add_sections_entries, fold_dict_set_fresh.
  - rewrite app_nil_l.
    destruct (re_split_blank content) as [|s sections] eqn:E;
      [elim (re_split_blank_not_nil _ E)|].
    apply join_sections.
  - rewrite app_nil_l. unfold keys. rewrite map_map. exact Hnd.
Qed.

Definition spaced_out : string :=
  "[A]" +++ newline +++ "x=1" +++ newline +++ newline +++ newline +++ newline
  +++ "[B]" +++ newline +++ "y=2".

Lemma write_after_read_normalises_witness :
  content_of_table (table_of_content spaced_out)
  = "[A]" +++ newline +++ "x=1" +++ newline +++ newline
    +++ "[B]" +++ newline +++ "y=2" +++ newline.
Proof.
  apply (write_after_read_normalises spaced_out).
  repeat constructor; simpl; intuition discriminate.
Defined.

(** The headers of a list, each at its first occurrence. *)
Fixpoint first_occurrences (seen : list string) (l : list string) : list string :=
  match l with
  | [] => []
  | x :: r =>
      if str_in x seen then first_occurrences seen r
      else x :: first_occurrences (x :: seen) r
  end.

Lemma first_occurrences_ext : forall l seen seen',
  (forall k, In k seen <-> In k seen') ->
  first_occurrences seen l = first_occurrences seen' l.
Proof.
  induction l as [|x l IH]; intros seen seen' H; [reflexivity|]. simpl.
  assert (E : str_in x seen = str_in x seen').
  { destruct (str_in x seen) eqn:E1; destruct (str_in x seen') eqn:E2; try reflexivity.
    - apply str_in_In, H, str_in_In in E1. congruence.
    - apply str_in_In, H, str_in_In in E2. congruence. }
  rewrite E. destruct (str_in x seen').
  - apply IH. exact H.
  - f_equal. apply IH. intros k. simpl. rewrite (H k). reflexivity.
Qed.

Lemma keys_add_sections : forall sections acc,
  keys (fold_left add_section sections acc)
  = keys acc ++ first_occurrences (keys acc) (map section_header sections).
Proof.
  induction sections as [|s sections IH]; intros acc.
  - simpl. rewrite app_nil_r. reflexivity.
  - cbn [fold_left map first_occurrences]. rewrite IH, add_section_set, keys_dict_set.
    destruct (dict_lookup (section_header s) acc) as [v|] eqn:E.
    + replace (str_in (section_header s) (keys acc)) with true; [reflexivity|].
      symmetry. apply str_in_In.
      apply dict_lookup_In in E. change (section_header s) with (fst (section_header s, v)).
      apply in_map. exact E.
    + replace (str_in (section_header s) (keys acc)) with false.
      * rewrite <- app_assoc. cbn [app]. do 2 f_equal.
        apply first_occurrences_ext. intros k. rewrite in_app_iff. simpl. tauto.
      * symmetry. apply dict_lookup_None in E.
        destruct (str_in (section_header s) (keys acc)) eqn:Es; [|reflexivity].
        apply str_in_In in Es. contradiction.
Qed.

(** X2: The headers of the table read from a file are the headers of the
    file's sections in file order, each at the place of its first
    section: a repeated header does not move. *)
Theorem read_keys_in_first_occurrence_order :
  forall content,
    keys (table_of_content content)
    = first_occurrences [] (map section_header (re_split_blank content)).
Proof. intros content. unfold table_of_content. apply keys_add_sections. Qed.

End ReadThenWrite.

(* ================================================================== *)
(** ** Which sections a rebuild of the summaries keeps *)
(* ================================================================== *)

Section SummaryClassification.
Import Py KF2.

Lemma length_append : forall a b,
  String.length (a +++ b) = (String.length a + String.length b)%nat.
Proof. induction a as [|c a IH]; intros b; simpl; [reflexivity|]. rewrite IH. reflexivity. Qed.

Lemma append_inv_tail : forall a b s, a +++ s = b +++ s -> a = b.
Proof.
  induction a as [|c a IH]; intros b s H.
  - destruct b as [|d b]; [reflexivity|].
    apply (f_equal String.length) in H. simpl in H. rewrite length_append in H. lia.
  - destruct b as [|d b].
    + apply (f_equal String.length) in H. simpl in H. rewrite length_append in H. lia.
    + simpl in H. injection H as -> H. rewrite (IH b s H). reflexivity.
Qed.

(** Two names with the same summary header are the same name. *)
Lemma summary_header_inj : forall n n', summary_header n = summary_header n' -> n = n'.
Proof.
  intros n n' H. unfold summary_header in H. simpl in H. injection H as H.
  exact (append_inv_tail n n' _ H).
Qed.

Lemma last_name_for_In : forall names name,
  In name names -> last_name_for (summary_header name) names = Some name.
Proof.
  intros names name Hin. unfold last_name_for.
  destruct (find _ (rev names)) as [n|] eqn:E.
  - apply find_some in E. destruct E as [_ E]. apply String.eqb_eq in E.
    rewrite (summary_header_inj n name E). reflexivity.
  - apply in_rev in Hin. pose proof (find_none _ _ E name Hin) as H.
    simpl in H. rewrite String.eqb_refl in H. discriminate H.
Qed.

Lemma last_name_for_not_In : forall names h,
  ~ In h (map summary_header names) -> last_name_for h names = None.
Proof.
  intros names h H. unfold last_name_for.
  destruct (find _ (rev names)) as [n|] eqn:E; [|reflexivity].
  apply find_some in E. destruct E as [Hin E]. apply String.eqb_eq in E.
  elim H. rewrite <- E. apply in_map. apply in_rev. exact Hin.
Qed.

Lemma untouched_rebuild : forall names t,
  NoDup (keys t) ->
  untouched names (rebuild_table names t) = filter not_custom (untouched names t).
Proof.
  intros names t Hnd. unfold rebuild_table.
  rewrite untouched_add_summaries, (drop_custom_summaries_filter t Hnd).
  unfold untouched. apply filter_comm.
Qed.

(** X3: On a table (no header twice), after a rebuild from the catalog
    [names]: every catalog name has its summary section with the one line
    [MapName=<name>], whatever the table held under that header; a section
    under any other header is gone when its header matches the summary
    pattern and its body has exactly one line, and is kept with its body
    otherwise (so a summary of eight lines stays); no other header
    appears; and the sections kept stay in their order. *)
Theorem rebuild_classifies_sections :
  forall names t,
    NoDup (keys t) ->
    (forall name, In name names ->
       dict_lookup (summary_header name) (rebuild_table names t)
       = Some [summary_line name])
    /\ (forall h lines,
          ~ In h (map summary_header names) ->
          dict_lookup h t = Some lines ->
          dict_lookup h (rebuild_table names t)
          = if re_map_summary_match h && (List.length lines =? 1)%nat
            then None else Some lines)
    /\ (forall h,
          ~ In h (map summary_header names) ->
          dict_lookup h t = None ->
          dict_lookup h (rebuild_table names t) = None)
    /\ untouched names (rebuild_table names t) = filter not_custom (untouched names t).
Proof.
  intros names t Hnd. repeat split.
  - intros name Hin. rewrite (dict_lookup_rebuild names t _ Hnd).
    rewrite (last_name_for_In names name Hin). reflexivity.
  - intros h lines Hh Hl. rewrite (dict_lookup_rebuild names t _ Hnd).
    rewrite (last_name_for_not_In names h Hh), Hl.
    unfold not_custom, is_custom_summary. simpl fst. simpl snd.
    destruct (re_map_summary_match h && (List.length lines =? 1)%nat); reflexivity.
  - intros h Hh Hl. rewrite (dict_lookup_rebuild names t _ Hnd).
    rewrite (last_name_for_not_In names h Hh), Hl. reflexivity.
  - apply untouched_rebuild. exact Hnd.
Qed.

Lemma rebuild_classifies_sections_witness :
  (forall name, In name ["KF-A"; "KF-C"] ->
     dict_lookup (summary_header name) (rebuild_table ["KF-A"; "KF-C"] summaries_before)
     = Some [summary_line name])
  /\ (forall h lines,
        ~ In h (map summary_header ["KF-A"; "KF-C"]) ->
        dict_lookup h summaries_before = Some lines ->
        dict_lookup h (rebuild_table ["KF-A"; "KF-C"] summaries_before)
        = if re_map_summary_match h && (List.length lines =? 1)%nat
          then None else Some lines)
  /\ (forall h,
        ~ In h (map summary_header ["KF-A"; "KF-C"]) ->
        dict_lookup h summaries_before = None ->
        dict_lookup h (rebuild_table ["KF-A"; "KF-C"] summaries_before) = None)
  /\ untouched ["KF-A"; "KF-C"] (rebuild_table ["KF-A"; "KF-C"] summaries_before)
     = filter not_custom (untouched ["KF-A"; "KF-C"] summaries_before).
Proof.
  apply (rebuild_classifies_sections ["KF-A"; "KF-C"] summaries_before).
  repeat constructor; simpl; intuition discriminate.
Defined.




End SummaryClassification.

(* ================================================================== *)
(** ** Editing the map cycle: which line is written *)
(* ================================================================== *)

Section MapCycleEdits.
Import Py KF2.

Definition cycle_lines (section : list string) : list string :=
  filter is_cycle_line section.

Section Indices.
Context {A : Type} (p : A -> bool).

Lemma length_indices_from : forall (l : list A) (o : Z),
  List.length (indices_from p o l) = List.length (filter p l).
Proof.
  induction l as [|x l IH]; intros o; simpl; [reflexivity|].
  destruct (p x); simpl; rewrite IH; reflexivity.
Qed.

(** The [k]-th index recorded is the position of the [k]-th element that
    passes [p]. *)
Lemma nth_indices_from : forall (l : list A) (o : Z) (k : nat) (i : Z),
  nth_error (indices_from p o l) k = Some i ->
  exists before old after,
    l = before ++ old :: after
    /\ p old = true
    /\ List.length (filter p before) = k
    /\ Z.of_nat (List.length before) = i - o.
Proof.
  induction l as [|x l IH]; intros o k i H.
  - destruct k; discriminate H.
  - simpl in H. destruct (p x) eqn:Ex.
    + destruct k as [|k].
      * injection H as <-. exists [], x, l. repeat split; [exact Ex|simpl; lia].
      * simpl in H. destruct (IH _ _ _ H) as (b & old & a & -> & Hold & Hk & Hi).
        exists (x :: b), old, a. repeat split; [exact Hold|simpl; rewrite Ex; simpl; lia|].
        simpl List.length. lia.
    + destruct (IH _ _ _ H) as (b & old & a & -> & Hold & Hk & Hi).
      exists (x :: b), old, a. repeat split; [exact Hold|simpl; rewrite Ex; exact Hk|].
      simpl List.length. lia.
Qed.

(** After the last index recorded no element passes [p]. *)
Lemma last_indices_from : forall (l : list A) (others : list Z) (last : Z),
  indices_from p 0 l = others ++ [last] ->
  exists before old after,
    l = before ++ old :: after
    /\ p old = true
    /\ filter p after = []
    /\ Z.of_nat (List.length before) = last.
Proof.
  intros l others last H.
  assert (Hn : nth_error (indices_from p 0 l) (List.length others) = Some last).
  { rewrite H, nth_error_app2, Nat.sub_diag by lia. reflexivity. }
  destruct (nth_indices_from l 0 _ _ Hn) as (b & old & a & -> & Hold & Hk & Hi).
  exists b, old, a. repeat split; [exact Hold| |lia].
  apply (f_equal (@List.length Z)) in H.
  rewrite length_indices_from, filter_app, !length_app in H. simpl in H.
  rewrite Hold in H. simpl in H.
  destruct (filter p a); [reflexivity|simpl in H; lia].
Qed.

End Indices.

Lemma replace_nth_middle : forall (A : Type) (before : list A) old after y,
  replace_nth (before ++ old :: after) (List.length before) y = before ++ y :: after.
Proof.
  intros A before old after y. induction before as [|b before IH]; simpl; [reflexivity|].
  rewrite IH. reflexivity.
Qed.

Lemma list_insert_middle : forall (A : Type) (before after : list A) y,
  list_insert (before ++ after) (Z.of_nat (List.length before)) y = before ++ y :: after.
Proof.
  intros A before after y. unfold list_insert.
  replace (Z.of_nat (List.length before) <? 0) with false
    by (symmetry; apply Z.ltb_ge; lia).
  rewrite length_app, Z.min_l, Nat2Z.id by lia.
  rewrite firstn_app, skipn_app, Nat.sub_diag, firstn_all, skipn_all. simpl.
  rewrite app_nil_r. reflexivity.
Qed.

Lemma new_mapcycle_is_cycle_line : forall names, is_cycle_line (new_mapcycle names) = true.
Proof. intros names. reflexivity. Qed.

(** What [l[i]] denotes for a valid index. *)
Lemma norm_index_valid : forall (A : Type) (l : list A) (i : Z),
  - Z.of_nat (List.length l) <= i < Z.of_nat (List.length l) ->
  norm_index l i
  = Some (Z.to_nat (if i <? 0 then i + Z.of_nat (List.length l) else i)).
Proof.
  intros A l i H. unfold norm_index.
  destruct (i <? 0) eqn:E.
  - apply Z.ltb_lt in E.
    replace ((0 <=? i + Z.of_nat (List.length l))
             && (i + Z.of_nat (List.length l) <? Z.of_nat (List.length l))) with true;
      [reflexivity|].
    symmetry. apply andb_true_iff. split; [apply Z.leb_le|apply Z.ltb_lt]; lia.
  - apply Z.ltb_ge in E.
    replace ((0 <=? i) && (i <? Z.of_nat (List.length l))) with true; [reflexivity|].
    symmetry. apply andb_true_iff. split; [apply Z.leb_le|apply Z.ltb_lt]; lia.
Qed.

Lemma norm_index_invalid : forall (A : Type) (l : list A) (i : Z),
  i < - Z.of_nat (List.length l) \/ Z.of_nat (List.length l) <= i ->
  norm_index l i = None.
Proof.
  intros A l i H. unfold norm_index.
  destruct (i <? 0) eqn:E.
  - apply Z.ltb_lt in E.
    destruct (0 <=? i + Z.of_nat (List.length l)) eqn:E1; [|reflexivity].
    apply Z.leb_le in E1. lia.
  - apply Z.ltb_ge in E.
    destruct (i <? Z.of_nat (List.length l)) eqn:E1; [|rewrite andb_false_r; reflexivity].
    apply Z.ltb_lt in E1. lia.
Qed.

(** The insertion branch, with the place of the new line. *)
Lemma rebuild_cycle_past_range :
  forall names index t section,
    dict_lookup _gameinfo_section_key t = Some section ->
    cycle_lines section <> [] ->
    Z.of_nat (List.length (cycle_lines section)) <= index ->
    exists before last_cycle after,
      section = before ++ last_cycle :: after
      /\ is_cycle_line last_cycle = true
      /\ cycle_lines after = []
      /\ rebuild_cycle names index t
         = Ok (dict_set _gameinfo_section_key
                 (before ++ last_cycle :: new_mapcycle names :: after) t).
Proof.
  intros names index t section Hsec Hne Hidx.
  assert (Hidx_ne : indices_from is_cycle_line 0 section <> []).
  { intros E. apply (f_equal (@List.length Z)) in E. rewrite length_indices_from in E.
    unfold cycle_lines in Hne.
    destruct (filter is_cycle_line section); [contradiction|discriminate E]. }
  destruct (exists_last Hidx_ne) as (l & x & E).
  destruct (last_indices_from is_cycle_line section l x E)
    as (before & old & after & -> & Hold & Hafter & Hlast).
  exists before, old, after. repeat split; [exact Hold|exact Hafter|].
  assert (Hlen : S (List.length l) = List.length (cycle_lines (before ++ old :: after))).
  { unfold cycle_lines. rewrite <- length_indices_from with (o := 0), E, length_app.
    simpl. lia. }
  rewrite (rebuild_cycle_past_last_inserts names index t _ l x Hsec E) by lia.
  f_equal. f_equal.
  replace (x + 1) with (Z.of_nat (List.length (before ++ [old])))
    by (rewrite length_app; simpl; lia).
  replace (before ++ old :: after) with ((before ++ [old]) ++ after)
    by (rewrite <- app_assoc; reflexivity).
  rewrite list_insert_middle, <- app_assoc. reflexivity.
Qed.

(** X6: [rebuild_custom_mapcycle] with an index past the last cycle line
    (there being one at least): the new line is put right after the last
    cycle line, and nothing else in the section changes. *)
Theorem rebuild_cycle_appends_after_last :
  forall names index t section,
    dict_lookup _gameinfo_section_key t = Some section ->
    cycle_lines section <> [] ->
    Z.of_nat (List.length (cycle_lines section)) <= index ->
    exists before last_cycle after,
      section = before ++ last_cycle :: after
      /\ is_cycle_line last_cycle = true
      /\ cycle_lines after = []
      /\ rebuild_cycle names index t
         = Ok (dict_set _gameinfo_section_key
                 (before ++ last_cycle :: new_mapcycle names :: after) t).
Proof. exact rebuild_cycle_past_range. Qed.

Definition game_info : table :=
  [ (_gameinfo_section_key,
     ["GameLength=1"; "GameMapCycles=(Maps=())"; "bUseMapList=True";
      "GameMapCycles=(Maps=(KF-Farmhouse))"; "ServerName=x"]) ].

Lemma rebuild_cycle_appends_after_last_witness :
  exists before last_cycle after,
    ["GameLength=1"; "GameMapCycles=(Maps=())"; "bUseMapList=True";
     "GameMapCycles=(Maps=(KF-Farmhouse))"; "ServerName=x"]
    = before ++ last_cycle :: after
    /\ is_cycle_line last_cycle = true
    /\ cycle_lines after = []
    /\ rebuild_cycle ["KF-A"] 2 game_info
       = Ok (dict_set _gameinfo_section_key
               (before ++ last_cycle :: new_mapcycle ["KF-A"] :: after) game_info).
Proof.
  apply (rebuild_cycle_appends_after_last ["KF-A"] 2 game_info).
  - reflexivity.
  - discriminate.
  - simpl. lia.
Defined.

(** The assignment branch, with the place of the line written. *)
Lemma rebuild_cycle_in_range :
  forall names index t section,
    dict_lookup _gameinfo_section_key t = Some section ->
    let n := Z.of_nat (List.length (cycle_lines section)) in
    - n <= index < n ->
    exists before old after,
      section = before ++ old :: after
      /\ is_cycle_line old = true
      /\ Z.of_nat (List.length (cycle_lines before)) = (if index <? 0 then index + n else index)
      /\ rebuild_cycle names index t
         = Ok (dict_set _gameinfo_section_key
                 (before ++ new_mapcycle names :: after) t).
Proof.
  intros names index t section Hsec n Hidx.
  assert (Hn : Z.of_nat (List.length (indices_from is_cycle_line 0 section)) = n).
  { rewrite length_indices_from. reflexivity. }
  unfold rebuild_cycle, dict_get. rewrite Hsec. cbn [bind].
  replace (index >? Z.of_nat (List.length (indices_from is_cycle_line 0 section)) - 1)
    with false by (symmetry; rewrite Hn, Z.gtb_ltb; apply Z.ltb_ge; lia).
  unfold getitem. rewrite norm_index_valid by (rewrite Hn; exact Hidx). rewrite Hn.
  set (k := Z.to_nat (if index <? 0 then index + n else index)).
  destruct (nth_error (indices_from is_cycle_line 0 section) k) as [i|] eqn:Ek.
  - destruct (nth_indices_from is_cycle_line section 0 k i Ek)
      as (before & old & after & -> & Hold & Hk & Hi).
    exists before, old, after. repeat split; [exact Hold| |].
    + unfold cycle_lines. rewrite Hk. unfold k. rewrite Z2Nat.id; [reflexivity|].
      destruct (index <? 0) eqn:E; [apply Z.ltb_lt in E|apply Z.ltb_ge in E]; lia.
    + cbn [bind]. unfold setitem.
      rewrite norm_index_valid by (rewrite length_app; simpl List.length; lia).
      replace (i <? 0) with false by (symmetry; apply Z.ltb_ge; lia).
      replace (Z.to_nat i) with (List.length before) by lia.
      rewrite replace_nth_middle. reflexivity.
  - apply nth_error_None in Ek. exfalso.
    assert (Z.of_nat k < n).
    { unfold k. rewrite Z2Nat.id;
        destruct (index <? 0) eqn:E; try apply Z.ltb_lt in E; try apply Z.ltb_ge in E; lia. }
    lia.
Qed.

(** X7: [rebuild_custom_mapcycle] with an index that denotes one of the [n]
    cycle lines: the cycle line number [index] is overwritten in place,
    and nothing else in the section changes. An index from [-n] to [-1]
    is accepted as well and counts from the last cycle line, as Python's
    indexing does. *)
Theorem rebuild_cycle_overwrites_in_place :
  forall names index t section,
    dict_lookup _gameinfo_section_key t = Some section ->
    let n := Z.of_nat (List.length (cycle_lines section)) in
    - n <= index < n ->
    exists before old after,
      section = before ++ old :: after
      /\ is_cycle_line old = true
      /\ Z.of_nat (List.length (cycle_lines before)) = (if index <? 0 then index + n else index)
      /\ rebuild_cycle names index t
         = Ok (dict_set _gameinfo_section_key
                 (before ++ new_mapcycle names :: after) t).
Proof. exact rebuild_cycle_in_range. Qed.

Lemma rebuild_cycle_overwrites_in_place_witness :
  exists before old after,
    ["GameLength=1"; "GameMapCycles=(Maps=())"; "bUseMapList=True";
     "GameMapCycles=(Maps=(KF-Farmhouse))"; "ServerName=x"]
    = before ++ old :: after
    /\ is_cycle_line old = true
    /\ Z.of_nat (List.length (cycle_lines before)) = (if -1 <? 0 then -1 + 2 else -1)
    /\ rebuild_cycle ["KF-A"] (-1) game_info
       = Ok (dict_set _gameinfo_section_key
               (before ++ new_mapcycle ["KF-A"] :: after) game_info).
Proof.
  apply (rebuild_cycle_overwrites_in_place ["KF-A"] (-1) game_info).
  - reflexivity.
  - simpl. lia.
Defined.

(** X5: When [rebuild_custom_mapcycle] raises, and what: [KeyError] when the
    table has no game-info section; [IndexError] when the section has no
    cycle line, or the index is below minus the number of cycle lines;
    in every other case it succeeds. *)
Theorem rebuild_cycle_errors :
  forall names index t,
    match dict_lookup _gameinfo_section_key t with
    | None => rebuild_cycle names index t = Raise KeyError
    | Some section =>
        let n := Z.of_nat (List.length (cycle_lines section)) in
        if (n =? 0) || (index <? - n)
        then rebuild_cycle names index t = Raise IndexError
        else exists t', rebuild_cycle names index t = Ok t'
    end.
Proof.
  intros names index t.
  destruct (dict_lookup _gameinfo_section_key t) as [section|] eqn:Hsec.
  - cbv zeta. set (n := Z.of_nat (List.length (cycle_lines section))).
    destruct (n =? 0) eqn:E0; simpl.
    + apply Z.eqb_eq in E0.
      assert (Hidx : indices_from is_cycle_line 0 section = []).
      { destruct (indices_from is_cycle_line 0 section) eqn:E; [reflexivity|].
        apply (f_equal (@List.length Z)) in E. rewrite length_indices_from in E.
        unfold n, cycle_lines in E0. simpl in E. lia. }
      unfold rebuild_cycle, dict_get. rewrite Hsec. cbn [bind]. rewrite Hidx.
      rewrite !getitem_nil. simpl. destruct (index >? -1); reflexivity.
    + apply Z.eqb_neq in E0. destruct (index <? - n) eqn:E1.
      * apply Z.ltb_lt in E1.
        unfold rebuild_cycle, dict_get. rewrite Hsec. cbn [bind].
        rewrite length_indices_from. fold (cycle_lines section). fold n.
        replace (index >? n - 1) with false by (symmetry; rewrite Z.gtb_ltb; apply Z.ltb_ge; lia).
        unfold getitem. rewrite norm_index_invalid; [reflexivity|].
        rewrite length_indices_from. fold (cycle_lines section). fold n. lia.
      * apply Z.ltb_ge in E1. destruct (Z_lt_le_dec index n) as [Hlt|Hge].
        -- destruct (rebuild_cycle_in_range names index t section Hsec)
             as (b & o & a & _ & _ & _ & Ht'); [fold n; lia|]. eexists. exact Ht'.
        -- destruct (rebuild_cycle_past_range names index t section Hsec)
             as (b & o & a & _ & _ & _ & Ht').
           ++ intros H. unfold n in E0. rewrite H in E0. apply E0. reflexivity.
           ++ fold n. lia.
           ++ eexists. exact Ht'.
  - unfold rebuild_cycle, dict_get. rewrite Hsec. reflexivity.
Qed.

End MapCycleEdits.

(* ================================================================== *)
(** ** [Base/kf2.py]: the earlier [add_workshop_items] *)
(* ================================================================== *)

Module BaseKF2.
Import Py KF2.

(** [add_workshop_items] between its read and its write: every line of
    the section is parsed (no test for ['=']), and the given IDs are
    always added to the ones found. *)
Definition add_items {order : SetOrder} (items : list Z) (section_table : table)
  : result table :=
  let '(t1, lines) := dict_setdefault _workshop_section_key [] section_table in
  bind (map_result item_of_line lines) (fun existing_items =>
  Ok (dict_set _workshop_section_key
        (map workshop_line (set_iter (items ++ existing_items))) t1)).

End BaseKF2.

(* ================================================================== *)
(** ** How the edits of the subscription compose *)
(* ================================================================== *)

Section SubscriptionEdits.
Import Py KF2.

Lemma keys_dict_set_present : forall (V : Type) (d : dict V) k v v',
  dict_lookup k d = Some v' -> keys (dict_set k v d) = keys d.
Proof. intros V d k v v' H. rewrite keys_dict_set, H. reflexivity. Qed.

(** X8: The lines written for a list of IDs are read back as these IDs, by
    the parser of [set_workshop_items] and by that of
    [remove_workshop_items] alike, for every integer, negative ones
    included. *)
Theorem written_lines_parse_back :
  forall ids : list Z,
    existing_items_guarded (map workshop_line ids) = Ok ids
    /\ existing_items_unguarded (map workshop_line ids) = Ok ids.
Proof.
  intros ids. split.
  - apply existing_items_guarded_written.
  - apply existing_items_unguarded_written.
Qed.

(** X9: An edit of the subscription leaves every other section with its body
    and in its place: the table without the subscription section is the
    same before and after, and the headers keep their order, the
    subscription header being added last when it was not there. *)
Theorem subscription_edits_keep_other_sections :
  forall (order : SetOrder) items append t t',
    set_items items append t = Ok t' \/ remove_items (Some items) t = Ok t' ->
    dict_remove _workshop_section_key t' = dict_remove _workshop_section_key t
    /\ keys t'
       = match dict_lookup _workshop_section_key t with
         | Some _ => keys t
         | None => keys t ++ [_workshop_section_key]
         end.
Proof.
  intros order items append t t' H.
  assert (Hset : exists lines, t' = dict_set _workshop_section_key lines t).
  { destruct H as [H|H].
    - rewrite set_items_unfold in H. destruct (stored_items t); [|discriminate H].
      simpl in H. injection H as <-. eexists. reflexivity.
    - rewrite remove_items_unfold in H.
      destruct (existing_items_unguarded (section_lines t)); [|discriminate H].
      simpl in H. injection H as <-. eexists. reflexivity. }
  destruct Hset as (lines & ->). split.
  - apply dict_remove_set.
  - apply keys_dict_set.
Qed.

Lemma subscription_edits_keep_other_sections_witness :
  dict_remove _workshop_section_key
    [("[Engine]", ["x=1"]); (_workshop_section_key, map workshop_line [1; 2])]
  = dict_remove _workshop_section_key [("[Engine]", ["x=1"])]
  /\ keys [("[Engine]", ["x=1"]); (_workshop_section_key, map workshop_line [1; 2])]
     = match dict_lookup _workshop_section_key [("[Engine]", ["x=1"])] with
       | Some _ => keys [("[Engine]", ["x=1"])]
       | None => keys [("[Engine]", ["x=1"])] ++ [_workshop_section_key]
       end.
Proof.
  apply (subscription_edits_keep_other_sections slot_order [2; 1] false
           [("[Engine]", ["x=1"])]).
  left. reflexivity.
Defined.


Lemma str_contains_false : forall sep s,
  str_contains sep s = false ->
  all_chars (fun c => negb (Ascii.eqb c sep)) s = true.
Proof.
  intros sep s. induction s as [|c r IH]; simpl; [reflexivity|].
  intros H. apply orb_false_iff in H. destruct H as [Hc Hr].
  rewrite Hc, (IH Hr). reflexivity.
Qed.

(** A line without ['=']: [line.split('=')[1]] is out of range. *)
Lemma item_of_line_IndexError : forall line,
  str_contains "="%char line = false -> item_of_line line = Raise IndexError.
Proof.
  intros line H. unfold item_of_line.
  rewrite (str_split_without_sep _ _ (str_contains_false _ _ H)). reflexivity.
Qed.

(** X10: [remove_workshop_items], with a collection or with [None], succeeds
    exactly when every line of the section -- each one, also a line
    without ['='] -- carries an integer after its first ['=']. A line
    without ['='] (an empty line, say) raises [IndexError], also when the
    call was to clear the subscription; the only other exception is the
    [ValueError] of [int()]. *)
Theorem remove_items_fails_on_any_bad_line :
  forall items t,
    ((exists t', remove_items items t = Ok t')
     <-> (forall line, In line (section_lines t) -> exists n, item_of_line line = Ok n))
    /\ (forall line,
          In line (section_lines t) -> str_contains "="%char line = false ->
          exists e, remove_items items t = Raise e)
    /\ (forall e, remove_items items t = Raise e -> e = IndexError \/ e = ValueError).
Proof.
  intros items t. rewrite remove_items_unfold. unfold existing_items_unguarded.
  split; [split|split].
  - intros (t' & H).
    apply (proj1 (map_result_Ok_iff _ _ item_of_line (section_lines t))).
    destruct (map_result item_of_line (section_lines t)) as [ys|e];
      [exists ys; reflexivity|discriminate H].
  - intros H.
    destruct (proj2 (map_result_Ok_iff _ _ item_of_line (section_lines t)) H) as (ys & ->).
    simpl. destruct items; eexists; reflexivity.
  - intros line Hin Hno.
    destruct (map_result item_of_line (section_lines t)) as [ys|e] eqn:E.
    + destruct (proj1 (map_result_Ok_iff _ _ item_of_line (section_lines t))
                  (ex_intro _ ys E) line Hin) as (n & Hn).
      rewrite (item_of_line_IndexError line Hno) in Hn. discriminate Hn.
    + exists e. reflexivity.
  - intros e H.
    destruct (map_result item_of_line (section_lines t)) as [ys|e'] eqn:E.
    + simpl in H. destruct items; discriminate H.
    + simpl in H. injection H as ->.
      apply map_result_Raise in E. destruct E as (line & _ & Hline).
      destruct (str_contains "="%char line) eqn:Ec.
      * right. exact (item_of_line_ValueError line e Ec Hline).
      * left. rewrite (item_of_line_IndexError line Ec) in Hline. congruence.
Qed.

Lemma with_trailing_blank_last : forall (t : table) h lines,
  with_trailing_blank (t ++ [(h, lines)]) = t ++ [(h, lines ++ [EmptyString])].
Proof.
  induction t as [|kv t IH]; intros h lines; [reflexivity|].
  change ((kv :: t) ++ [(h, lines)]) with (kv :: (t ++ [(h, lines)])).
  destruct (t ++ [(h, lines)]) as [|kv' r] eqn:E.
  - destruct t; discriminate E.
  - change (with_trailing_blank (kv :: kv' :: r)) with (kv :: with_trailing_blank (kv' :: r)).
    rewrite <- E, IH. reflexivity.
Qed.

Lemma dict_lookup_last : forall (V : Type) (d : dict V) k v,
  ~ In k (keys d) -> dict_lookup k (d ++ [(k, v)]) = Some v.
Proof.
  intros V d k v H. rewrite <- (dict_set_fresh V d k v H). apply dict_lookup_set_same.
Qed.

Lemma map_result_app_raise : forall (A B : Type) (f : A -> result B) xs x rest e ys,
  map_result f xs = Ok ys -> f x = Raise e ->
  map_result f (xs ++ x :: rest) = Raise e.
Proof.
  intros A B f xs x rest e. induction xs as [|a xs IH]; intros ys Hok Hx; simpl.
  - rewrite Hx. reflexivity.
  - simpl in Hok. destruct (f a) as [y|e']; [|discriminate Hok]. simpl in *.
    destruct (map_result f xs) as [ys'|e'']; [|discriminate Hok].
    rewrite (IH ys' eq_refl Hx). reflexivity.
Qed.

(** X11: The two methods on the file written for a well-formed table whose
    last section is the subscription section with the lines of some IDs:
    [remove_workshop_items] raises [IndexError] whatever it is asked to
    remove, because the section read back ends in an empty line, while
    [set_workshop_items] skips that line and succeeds. *)
Theorem remove_after_write_raises :
  forall (order : SetOrder) (t : table) (ids : list Z) (d : disk),
    well_formed (t ++ [(_workshop_section_key, map workshop_line ids)]) ->
    let written :=
      write_table_to_ini_file EngineIni
        (t ++ [(_workshop_section_key, map workshop_line ids)]) d in
    (forall items, remove_workshop_items items written = Raise IndexError)
    /\ (forall items append, exists d', set_workshop_items items append written = Ok d').
Proof.
  intros order t ids d Hwf written.
  assert (Hread : read_ini_file_to_table EngineIni written
                  = Ok (t ++ [(_workshop_section_key,
                               map workshop_line ids ++ [EmptyString])])).
  { unfold written, read_ini_file_to_table, write_table_to_ini_file. simpl.
    rewrite (table_of_content_of_table _ Hwf). unfold read_back.
    destruct (t ++ [(_workshop_section_key, map workshop_line ids)]) eqn:E.
    - destruct t; discriminate E.
    - rewrite <- E, with_trailing_blank_last. reflexivity. }
  assert (Hfresh : ~ In _workshop_section_key (keys t)).
  { destruct Hwf as [Hnd _]. unfold keys in *. rewrite map_app in Hnd. simpl in Hnd.
    apply NoDup_remove_2 in Hnd. rewrite app_nil_r in Hnd. exact Hnd. }
  assert (Hlines : section_lines
                     (t ++ [(_workshop_section_key, map workshop_line ids ++ [EmptyString])])
                   = map workshop_line ids ++ [EmptyString]).
  { unfold section_lines. rewrite (dict_lookup_last _ t _ _ Hfresh). reflexivity. }
  split.
  - intros items. unfold remove_workshop_items. rewrite Hread. cbn [bind].
    rewrite remove_items_unfold, Hlines. unfold existing_items_unguarded.
    rewrite (map_result_app_raise _ _ item_of_line (map workshop_line ids) EmptyString []
               IndexError ids (existing_items_unguarded_written ids) eq_refl).
    reflexivity.
  - intros items append. unfold set_workshop_items. rewrite Hread. cbn [bind].
    rewrite set_items_unfold. unfold stored_items. rewrite Hlines.
    unfold existing_items_guarded. rewrite filter_app. cbn [filter str_contains].
    rewrite app_nil_r. fold (existing_items_guarded (map workshop_line ids)).
    rewrite existing_items_guarded_written. cbn [bind]. eexists. reflexivity.
Qed.

Lemma remove_after_write_raises_witness :
  (forall items,
     remove_workshop_items items
       (write_table_to_ini_file EngineIni
          ([("[Engine]", ["x=1"])] ++ [(_workshop_section_key, map workshop_line [7; 5])])
          empty_disk)
     = Raise IndexError)
  /\ (forall items append, exists d',
        @set_workshop_items slot_order items append
          (write_table_to_ini_file EngineIni
             ([("[Engine]", ["x=1"])] ++ [(_workshop_section_key, map workshop_line [7; 5])])
             empty_disk)
        = Ok d').
Proof.
  apply (remove_after_write_raises slot_order [("[Engine]", ["x=1"])] [7; 5] empty_disk).
  split.
  - repeat constructor; simpl; intuition discriminate.
  - repeat constructor.
Defined.

(** X13: MERGE with the same IDs a second time stores the same IDs, none
    twice; only their order can change. *)
Theorem merge_twice_same_ids :
  forall (order : SetOrder) a t t1,
    set_items a true t = Ok t1 ->
    exists t2 ids1 ids2,
      set_items a true t1 = Ok t2
      /\ stored_items t1 = Ok ids1
      /\ stored_items t2 = Ok ids2
      /\ NoDup ids2
      /\ Permutation ids1 ids2.
Proof.
  intros order a t t1 H.
  rewrite set_items_unfold in H.
  destruct (stored_items t) as [ex|] eqn:Eex; [|discriminate H].
  simpl in H. injection H as <-.
  assert (Hst : forall l u, stored_items (dict_set _workshop_section_key (map workshop_line l) u)
                            = Ok l).
  { intros l u. unfold stored_items. rewrite section_lines_set.
    apply existing_items_guarded_written. }
  rewrite set_items_unfold, Hst. cbn [bind].
  eexists. exists (set_iter (a ++ ex)), (set_iter (a ++ set_iter (a ++ ex))).
  split; [reflexivity|]. split; [first [apply Hst|reflexivity]|]. split; [apply Hst|].
  split; [apply set_iter_NoDup|].
  apply NoDup_Permutation; try apply set_iter_NoDup.
  intros x. rewrite !set_iter_In, !in_app_iff, set_iter_In, in_app_iff. tauto.
Qed.

Lemma merge_twice_same_ids_witness :
  exists t2 ids1 ids2,
    @set_items slot_order [8; 1] true
      [(_workshop_section_key, map workshop_line [8; 1; 9])] = Ok t2
    /\ stored_items [(_workshop_section_key, map workshop_line [8; 1; 9])] = Ok ids1
    /\ stored_items t2 = Ok ids2
    /\ NoDup ids2
    /\ Permutation ids1 ids2.
Proof.
  apply (merge_twice_same_ids slot_order [8; 1]
           [(_workshop_section_key, map workshop_line [9])]).
  reflexivity.
Defined.

End SubscriptionEdits.

(* ================================================================== *)
(** ** The two variants of adding workshop items *)
(* ================================================================== *)

Section Variants.
Import Py KF2.

Lemma add_items_unfold : forall (order : SetOrder) items t,
  BaseKF2.add_items items t
  = bind (map_result item_of_line (section_lines t)) (fun existing_items =>
      Ok (dict_set _workshop_section_key
            (map workshop_line (set_iter (items ++ existing_items))) t)).
Proof.
  intros order items t. unfold BaseKF2.add_items, section_lines, dict_setdefault.
  destruct (dict_lookup _workshop_section_key t) as [lines|]; [reflexivity|].
  simpl. rewrite dict_set_set. reflexivity.
Qed.

(** X15: Whenever the earlier [add_workshop_items] succeeds, the later
    [set_workshop_items] in append mode gives the same table; a
    success of the earlier one means that every line of the section holds
    an ['='], the lines the later one would skip. *)
Theorem add_items_refined_by_set_items :
  forall (order : SetOrder) items t t',
    BaseKF2.add_items items t = Ok t' ->
    set_items items true t = Ok t'
    /\ (forall line, In line (section_lines t) -> str_contains "="%char line = true).
Proof.
  intros order items t t' H. rewrite add_items_unfold in H.
  destruct (map_result item_of_line (section_lines t)) as [ex|] eqn:E; [|discriminate H].
  assert (Hall : forall line, In line (section_lines t) -> str_contains "="%char line = true).
  { intros line Hin.
    destruct (proj1 (map_result_Ok_iff _ _ item_of_line (section_lines t))
                (ex_intro _ ex E) line Hin) as (n & Hn).
    destruct (str_contains "="%char line) eqn:Ec; [reflexivity|].
    rewrite (item_of_line_IndexError line Ec) in Hn. discriminate Hn. }
  split; [|exact Hall].
  rewrite set_items_unfold. unfold stored_items, existing_items_guarded.
  rewrite (filter_all _ _ _ Hall), E. exact H.
Qed.

Lemma add_items_refined_by_set_items_witness :
  @set_items slot_order [5; 9] true two_stored
  = Ok [ ("[Engine]", ["x=1"]);
         (_workshop_section_key, map workshop_line [9; 5; 7]) ]
  /\ (forall line, In line (section_lines two_stored) -> str_contains "="%char line = true).
Proof.
  apply (add_items_refined_by_set_items slot_order [5; 9] two_stored). reflexivity.
Defined.

End Variants.

(* ================================================================== *)
(** ** Clearing the cache: the first failure *)
(* ================================================================== *)

Section CacheAnyLines.
Import Py KF2.

(** X16: Clearing the cache stops at the first failure. In a cache
    directory (no two entries with one name) whose first entry that is
    neither protected by a line's first run of digits nor deletable is
    [f], the method removes the unprotected entries listed before [f],
    leaves [f] and every entry listed after it, protected or not, and
    ends with the [OSError] of [rmtree]. Without the subscription section
    it raises [KeyError] and removes nothing. *)
Theorem reconcile_stops_at_first_failure :
  forall (t : table) (pre post : list cache_entry) (f : cache_entry),
    NoDup (map entry_name (pre ++ f :: post)) ->
    match dict_lookup _workshop_section_key t with
    | None => reconcile t (pre ++ f :: post) = (pre ++ f :: post, Some KeyError)
    | Some lines =>
        (forall e, In e pre -> protected (map_ids lines) e = false -> deletable e = true) ->
        protected (map_ids lines) f = false ->
        deletable f = false ->
        reconcile t (pre ++ f :: post)
        = (filter (protected (map_ids lines)) pre ++ f :: post, Some OSError)
    end.
Proof.
  intros t pre post f Hnd. unfold reconcile.
  destruct (dict_lookup _workshop_section_key t) as [lines|]; [|reflexivity].
  intros Hpre Hp Hd. apply clear_loop_stops_own.
  - exact Hnd.
  - apply passable_all. exact Hpre.
  - unfold passable. rewrite Hp, Hd. reflexivity.
Qed.

Lemma reconcile_stops_at_first_failure_witness :
  reconcile listed_12_7
    ([ {| entry_name := "7"; deletable := true |};
       {| entry_name := "8"; deletable := true |} ]
     ++ {| entry_name := "tmp"; deletable := false |}
        :: [ {| entry_name := "9"; deletable := true |};
             {| entry_name := "12"; deletable := true |} ])
  = (filter (protected (map_ids (map workshop_line [12; 7])))
       [ {| entry_name := "7"; deletable := true |};
         {| entry_name := "8"; deletable := true |} ]
     ++ {| entry_name := "tmp"; deletable := false |}
        :: [ {| entry_name := "9"; deletable := true |};
             {| entry_name := "12"; deletable := true |} ],
     Some OSError).
Proof.
  apply (reconcile_stops_at_first_failure listed_12_7
           [ {| entry_name := "7"; deletable := true |};
             {| entry_name := "8"; deletable := true |} ]
           [ {| entry_name := "9"; deletable := true |};
             {| entry_name := "12"; deletable := true |} ]
           {| entry_name := "tmp"; deletable := false |}).
  - repeat constructor; simpl; intuition discriminate.
  - intros e [<-|[<-|[]]] H; [discriminate H|reflexivity].
  - reflexivity.
  - reflexivity.
Defined.

End CacheAnyLines.

(* ================================================================== *)
(** ** [tptiap.py]: the earlier supervisor loop *)
(* ================================================================== *)

Module Legacy.
Import Presets.

(** The earlier [start_kf2_server]: as the later one, without the
    clearing of the cache. *)
Definition start_kf2_server : list event :=
  [ SetWorkshopItems;
    Launch steam; Launch kf2; Sleep 300;
    Terminate steam; Terminate kf2; Wait steam; Wait kf2;
    RebuildMapSummaries; RebuildCustomMapcycle;
    Launch steam; Launch kf2 ].

(** One turn of the inner loop: the hour is all it looks at, and it
    sleeps a minute. It has no [return]. *)
Definition turn (restart_hour : Z) (is_restart_hour : bool) (hour : Z)
  : list event * bool :=
  if (hour =? restart_hour) && is_restart_hour then
    ([LocalTime; Terminate steam; Terminate kf2; Wait steam; Wait kf2]
     ++ start_kf2_server,
     false)
  else
    ([LocalTime; Sleep 60],
     if negb (hour =? restart_hour) then true else is_restart_hour).

Fixpoint run (restart_hour : Z) (is_restart_hour : bool) (hours : list Z)
  : list event * bool :=
  match hours with
  | [] => ([], is_restart_hour)
  | hour :: rest =>
      let '(ev, b) := turn restart_hour is_restart_hour hour in
      let '(ev', b') := run restart_hour b rest in
      (ev ++ ev', b')
  end.

Definition start_kf2_server_loop (restart_hour : Z) (hours : list Z)
  : list event * bool :=
  let '(ev, b) := run restart_hour false hours in
  (start_kf2_server ++ ev, b).

End Legacy.

(* ================================================================== *)
(** ** The supervisor: schedule and handles *)
(* ================================================================== *)

Section SupervisorSchedule.
Import Presets.

Definition both_alive (o : observation) : Prop :=
  kf2_poll o = None /\ steam_poll o = None.

(** The calls of a turn in which nothing happens. *)
Definition idle_turn : list event := [Poll kf2; Poll steam; LocalTime; Sleep 1].

(** The calls of a turn that restarts, up to the next monitor loop. *)
Definition restart_turn : list event :=
  [Poll kf2; Poll steam; LocalTime;
   Terminate steam; Terminate kf2; Wait steam; Wait kf2] ++ start_kf2_server.

Lemma run_cons : forall restart_hour b o rest,
  run restart_hour (RUNNING b) (o :: rest)
  = (fst (turn restart_hour b o)
       ++ fst (run restart_hour (snd (turn restart_hour b o)) rest),
     snd (run restart_hour (snd (turn restart_hour b o)) rest)).
Proof.
  intros restart_hour b o rest. cbn [run].
  destruct (turn restart_hour b o) as [ev s]. cbn [fst snd].
  destruct (run restart_hour s rest) as [ev' s']. reflexivity.
Qed.

Lemma turn_inside : forall restart_hour o,
  both_alive o -> tm_hour o = restart_hour ->
  turn restart_hour false o = (idle_turn, RUNNING false).
Proof.
  intros restart_hour o [Hk Hs] Hh. unfold turn. rewrite Hk, Hs, Hh, Z.eqb_refl.
  reflexivity.
Qed.

Lemma turn_away : forall restart_hour b o,
  both_alive o -> tm_hour o <> restart_hour ->
  turn restart_hour b o = (idle_turn, RUNNING true).
Proof.
  intros restart_hour b o [Hk Hs] Hh. unfold turn. rewrite Hk, Hs.
  apply Z.eqb_neq in Hh. rewrite Hh. reflexivity.
Qed.

Lemma turn_back : forall restart_hour o,
  both_alive o -> tm_hour o = restart_hour ->
  turn restart_hour true o = (restart_turn, RUNNING false).
Proof.
  intros restart_hour o [Hk Hs] Hh. unfold turn. rewrite Hk, Hs, Hh, Z.eqb_refl.
  reflexivity.
Qed.

Lemma run_inside : forall restart_hour inside,
  Forall (fun o => both_alive o /\ tm_hour o = restart_hour) inside ->
  run restart_hour (RUNNING false) inside
  = (flat_map (fun _ => idle_turn) inside, RUNNING false).
Proof.
  intros restart_hour inside H. induction H as [|o inside [Ha Hh] _ IH].
  - reflexivity.
  - rewrite run_cons, (turn_inside restart_hour o Ha Hh). cbn [fst snd].
    rewrite IH. reflexivity.
Qed.

Lemma run_away : forall restart_hour away b,
  away <> [] ->
  Forall (fun o => both_alive o /\ tm_hour o <> restart_hour) away ->
  run restart_hour (RUNNING b) away
  = (flat_map (fun _ => idle_turn) away, RUNNING true).
Proof.
  intros restart_hour away b Hne H. revert b.
  induction H as [|o away [Ha Hh] Hrest IH]; intros b; [contradiction|].
  rewrite run_cons, (turn_away restart_hour b o Ha Hh). cbn [fst snd].
  destruct away as [|o' away'].
  - reflexivity.
  - rewrite (IH ltac:(discriminate) true). reflexivity.
Qed.

(** X17: A supervisor started inside the restart hour does not restart while
    that hour lasts: as long as both processes live and the hour is the
    restart hour, every turn polls both, reads the clock and sleeps, and
    nothing is terminated or launched. *)
Theorem no_restart_while_start_hour_lasts :
  forall restart_hour inside,
    Forall (fun o => both_alive o /\ tm_hour o = restart_hour) inside ->
    start_kf2_server_loop restart_hour inside
    = (start_kf2_server ++ flat_map (fun _ => idle_turn) inside, RUNNING false).
Proof.
  intros restart_hour inside H. rewrite loop_unfold, (run_inside _ _ H). reflexivity.
Qed.

Lemma no_restart_while_start_hour_lasts_witness :
  start_kf2_server_loop 4 [all_well 4; all_well 4; all_well 4]
  = (start_kf2_server
       ++ flat_map (fun _ => idle_turn) [all_well 4; all_well 4; all_well 4],
     RUNNING false).
Proof.
  apply (no_restart_while_start_hour_lasts 4 [all_well 4; all_well 4; all_well 4]).
  repeat constructor.
Defined.

(** X18: The restart fires once the hour has left the restart hour and come
    back: with both processes alive throughout, after any turns inside
    the restart hour and one or more turns outside it, the first turn
    that sees the restart hour again terminates both processes, waits for
    both, runs [start_kf2_server] again and is back in the monitor loop
    with the flag cleared; no turn before it does. *)
Theorem restart_fires_on_return_to_restart_hour :
  forall restart_hour inside away back,
    Forall (fun o => both_alive o /\ tm_hour o = restart_hour) inside ->
    away <> [] ->
    Forall (fun o => both_alive o /\ tm_hour o <> restart_hour) away ->
    both_alive back -> tm_hour back = restart_hour ->
    start_kf2_server_loop restart_hour (inside ++ away ++ [back])
    = (start_kf2_server
         ++ flat_map (fun _ => idle_turn) (inside ++ away)
         ++ restart_turn,
       RUNNING false).
Proof.
  intros restart_hour inside away back Hin Hne Haway Hback Hh.
  rewrite loop_unfold, run_app, (run_inside _ _ Hin). cbn [fst snd].
  rewrite run_app, (run_away _ _ false Hne Haway). cbn [fst snd].
  rewrite run_cons, (turn_back restart_hour back Hback Hh). cbn [fst snd run].
  rewrite app_nil_r, flat_map_app, <- !app_assoc. reflexivity.
Qed.

Lemma restart_fires_on_return_to_restart_hour_witness :
  start_kf2_server_loop 4 ([all_well 4] ++ [all_well 5; all_well 3] ++ [all_well 4])
  = (start_kf2_server
       ++ flat_map (fun _ => idle_turn) ([all_well 4] ++ [all_well 5; all_well 3])
       ++ restart_turn,
     RUNNING false).
Proof.
  apply (restart_fires_on_return_to_restart_hour 4 [all_well 4]
           [all_well 5; all_well 3] (all_well 4)).
  - repeat constructor.
  - discriminate.
  - repeat constructor; simpl; lia.
  - repeat constructor.
  - reflexivity.
Defined.

(** X19: When the server is seen to have exited, the supervisor terminates
    the update agent, waits for it and stops for good, without looking
    at the agent's state and whatever the hour is. *)
Theorem server_exit_stops_supervisor :
  forall restart_hour past b o code future,
    snd (start_kf2_server_loop restart_hour past) = RUNNING b ->
    kf2_poll o = Some code ->
    start_kf2_server_loop restart_hour (past ++ o :: future)
    = (fst (start_kf2_server_loop restart_hour past)
         ++ [Poll kf2; Terminate steam; Wait steam],
       STOPPED).
Proof.
  intros restart_hour past b o code future Hs Hk.
  rewrite !loop_unfold in *. simpl in Hs.
  rewrite run_app, Hs, run_cons. unfold turn. rewrite Hk. cbn [fst snd].
  rewrite run_stopped. cbn [fst snd].
  rewrite app_nil_r, app_assoc. reflexivity.
Qed.

Definition server_gone : observation :=
  {| kf2_poll := Some 0; steam_poll := Some 1; tm_hour := 4 |}.

Lemma server_exit_stops_supervisor_witness :
  start_kf2_server_loop 4 ([all_well 3] ++ server_gone :: [all_well 4])
  = (fst (start_kf2_server_loop 4 [all_well 3]) ++ [Poll kf2; Terminate steam; Wait steam],
     STOPPED).
Proof.
  apply (server_exit_stops_supervisor 4 [all_well 3] true server_gone 0 [all_well 4]);
    reflexivity.
Defined.

(** *** The handles *)

(** Which of the two processes the supervisor holds a handle of that it
    has not waited on. *)
Definition held (p : proc) (h : bool * bool) : bool :=
  match p with
  | steam => fst h
  | kf2 => snd h
  end.

Definition hold (p : proc) (v : bool) (h : bool * bool) : bool * bool :=
  match p with
  | steam => (v, snd h)
  | kf2 => (fst h, v)
  end.

(** Follows a trace: a launch needs the process not to be held, a poll, a
    terminate and a wait need it to be held, a wait gives the handle up.
    [None] when a call breaks this. *)
Fixpoint follow (h : bool * bool) (ev : list event) : option (bool * bool) :=
  match ev with
  | [] => Some h
  | Launch p :: r => if held p h then None else follow (hold p true h) r
  | Poll p :: r => if held p h then follow h r else None
  | Terminate p :: r => if held p h then follow h r else None
  | Wait p :: r => if held p h then follow (hold p false h) r else None
  | _ :: r => follow h r
  end.

Lemma follow_app : forall ev1 ev2 h,
  follow h (ev1 ++ ev2)
  = match follow h ev1 with
    | Some h' => follow h' ev2
    | None => None
    end.
Proof.
  induction ev1 as [|e ev1 IH]; intros ev2 h; [reflexivity|].
  destruct e as [| |p| |p|p|p| | |]; simpl; try apply IH;
    destruct (held p h); try reflexivity; apply IH.
Qed.

Lemma follow_run : forall restart_hour obs b,
  exists h,
    follow (true, true) (fst (run restart_hour (RUNNING b) obs)) = Some h
    /\ match snd (run restart_hour (RUNNING b) obs) with
       | RUNNING _ => h = (true, true)
       | STOPPED => h = (false, true) \/ h = (true, false)
       end.
Proof.
  intros restart_hour obs. induction obs as [|o obs IH]; intros b.
  - exists (true, true). split; reflexivity.
  - rewrite run_cons. unfold turn.
    destruct (kf2_poll o) as [c|].
    + cbn [fst snd]. rewrite run_stopped. exists (false, true). split; [reflexivity|].
      left. reflexivity.
    + destruct (steam_poll o) as [c|].
      * cbn [fst snd]. rewrite run_stopped. exists (true, false). split; [reflexivity|].
        right. reflexivity.
      * destruct ((tm_hour o =? restart_hour) && b); cbn [fst snd].
        -- destruct (IH false) as (h & Hf & Hs). exists h. split; [|exact Hs].
           rewrite follow_app. exact Hf.
        -- destruct (IH (if negb (tm_hour o =? restart_hour) then true else b))
             as (h & Hf & Hs).
           exists h. split; [|exact Hs]. rewrite follow_app. exact Hf.
Qed.

(** X20: Whatever is observed, the trace of the supervisor respects its
    handles: it never launches a process while it holds a handle of it
    that it has not waited on, and never polls, terminates or waits on a
    process it does not hold. While it runs it holds both; once stopped
    it has waited on one and holds the one it saw exited. *)
Theorem supervisor_respects_handles :
  forall restart_hour obs,
    exists h,
      follow (false, false) (fst (start_kf2_server_loop restart_hour obs)) = Some h
      /\ match snd (start_kf2_server_loop restart_hour obs) with
         | RUNNING _ => h = (true, true)
         | STOPPED => h = (false, true) \/ h = (true, false)
         end.
Proof.
  intros restart_hour obs. rewrite loop_unfold. cbn [fst snd].
  destruct (follow_run restart_hour obs false) as (h & Hf & Hs).
  exists h. split; [|exact Hs]. rewrite follow_app. exact Hf.
Qed.

(** *** The earlier loop *)

(** What the later loop adds to the earlier one: the polls and the
    clearing of the cache; and it sleeps a second where the earlier one
    sleeps a minute. *)
Fixpoint without_monitoring (ev : list event) : list event :=
  match ev with
  | [] => []
  | Poll _ :: r => without_monitoring r
  | ClearUnregisteredWorkshopMaps :: r => without_monitoring r
  | Sleep 1 :: r => Sleep 60 :: without_monitoring r
  | e :: r => e :: without_monitoring r
  end.

Lemma without_monitoring_app : forall ev1 ev2,
  without_monitoring (ev1 ++ ev2) = without_monitoring ev1 ++ without_monitoring ev2.
Proof.
  induction ev1 as [|e ev1 IH]; intros ev2; [reflexivity|].
  destruct e as [| |p|z|p|p|p| | |]; simpl; rewrite ?IH; try reflexivity.
  destruct z as [|[q|q|]|q]; simpl; rewrite ?IH; reflexivity.
Qed.

Lemma legacy_run_agrees : forall restart_hour obs b,
  Forall both_alive obs ->
  without_monitoring (fst (run restart_hour (RUNNING b) obs))
  = fst (Legacy.run restart_hour b (map tm_hour obs))
  /\ snd (run restart_hour (RUNNING b) obs)
     = RUNNING (snd (Legacy.run restart_hour b (map tm_hour obs))).
Proof.
  intros restart_hour obs b H. revert b.
  induction H as [|o obs [Hk Hs] _ IH]; intros b.
  - split; reflexivity.
  - rewrite run_cons. cbn [map Legacy.run]. unfold turn, Legacy.turn. rewrite Hk, Hs.
    destruct ((tm_hour o =? restart_hour) && b); cbn [fst snd].
    + destruct (IH false) as [IH1 IH2].
      destruct (Legacy.run restart_hour false (map tm_hour obs)) as [ev' b'] eqn:E.
      cbn [fst snd] in *. rewrite without_monitoring_app, IH1, IH2. split; reflexivity.
    + destruct (IH (if negb (tm_hour o =? restart_hour) then true else b)) as [IH1 IH2].
      destruct (Legacy.run restart_hour _ (map tm_hour obs)) as [ev' b'] eqn:E.
      cbn [fst snd] in *. rewrite without_monitoring_app, IH1, IH2. split; reflexivity.
Qed.

(** X21: As long as both processes live, the later loop does what the earlier
    loop of [tptiap.py] does at the same hours, with the polls and the
    clearing of the cache added and a second of sleep for a minute; and
    it is in its monitor loop with the flag the earlier loop has. *)
Theorem later_loop_extends_earlier_loop :
  forall restart_hour obs,
    Forall both_alive obs ->
    without_monitoring (fst (start_kf2_server_loop restart_hour obs))
    = fst (Legacy.start_kf2_server_loop restart_hour (map tm_hour obs))
    /\ snd (start_kf2_server_loop restart_hour obs)
       = RUNNING (snd (Legacy.start_kf2_server_loop restart_hour (map tm_hour obs))).
Proof.
  intros restart_hour obs H. rewrite loop_unfold. unfold Legacy.start_kf2_server_loop.
  destruct (legacy_run_agrees restart_hour obs false H) as [H1 H2].
  destruct (Legacy.run restart_hour false (map tm_hour obs)) as [ev b].
  cbn [fst snd] in *. rewrite without_monitoring_app, H1, H2. split; reflexivity.
Qed.

Lemma later_loop_extends_earlier_loop_witness :
  without_monitoring
    (fst (start_kf2_server_loop 4 [all_well 4; all_well 5; all_well 4; all_well 4]))
  = fst (Legacy.start_kf2_server_loop 4
           (map tm_hour [all_well 4; all_well 5; all_well 4; all_well 4]))
  /\ snd (start_kf2_server_loop 4 [all_well 4; all_well 5; all_well 4; all_well 4])
     = RUNNING (snd (Legacy.start_kf2_server_loop 4
                       (map tm_hour [all_well 4; all_well 5; all_well 4; all_well 4]))).
Proof.
  apply (later_loop_extends_earlier_loop 4
           [all_well 4; all_well 5; all_well 4; all_well 4]).
  repeat constructor.
Defined.

End SupervisorSchedule.

(* ================================================================== *)
(** ** The map cycle line and the order of the catalog *)
(* ================================================================== *)

From Stdlib Require OrderedTypeEx.
From Stdlib Require Import Sorting.Sorted.

Section CycleLine.
Import Py KF2.

Definition str_le (a b : string) : Prop := String.leb a b = true.

Lemma str_le_cases : forall a b, str_le a b <-> a = b \/ OrderedTypeEx.String_as_OT.lt a b.
Proof.
  intros a b. unfold str_le, String.leb.
  destruct (String.compare a b) eqn:E.
  - apply String.compare_eq_iff in E. tauto.
  - apply OrderedTypeEx.String_as_OT.cmp_lt in E. tauto.
  - split; [discriminate|]. intros [H|H].
    + subst b. pose proof (proj2 (OrderedTypeEx.String_as_OT.cmp_eq a a) eq_refl) as Hc.
      unfold OrderedTypeEx.String_as_OT.cmp in Hc. congruence.
    + apply OrderedTypeEx.String_as_OT.cmp_lt in H.
      unfold OrderedTypeEx.String_as_OT.cmp in H. congruence.
Qed.

Lemma str_le_trans : forall a b c, str_le a b -> str_le b c -> str_le a c.
Proof.
  intros a b c Hab Hbc. apply str_le_cases in Hab, Hbc. apply str_le_cases.
  destruct Hab as [->|Hab]; [exact Hbc|].
  destruct Hbc as [<-|Hbc]; [right; exact Hab|].
  right. exact (OrderedTypeEx.String_as_OT.lt_trans _ _ _ Hab Hbc).
Qed.

Lemma insert_sorted_Permutation : forall x l, Permutation (insert_sorted x l) (x :: l).
Proof.
  intros x l. induction l as [|y l IH]; simpl; [reflexivity|].
  destruct (String.leb x y); [reflexivity|].
  rewrite IH. apply perm_swap.
Qed.

Lemma sorted_Permutation : forall l, Permutation (sorted l) l.
Proof.
  induction l as [|x l IH]; simpl; [reflexivity|].
  rewrite insert_sorted_Permutation, IH. reflexivity.
Qed.

Lemma insert_sorted_StronglySorted : forall x l,
  StronglySorted str_le l -> StronglySorted str_le (insert_sorted x l).
Proof.
  intros x l H. induction H as [|y l Hl IH Hy]; simpl.
  - constructor; constructor.
  - destruct (String.leb x y) eqn:E.
    + constructor; [constructor; assumption|].
      constructor; [exact E|].
      eapply Forall_impl; [|exact Hy]. intros z Hz. exact (str_le_trans x y z E Hz).
    + constructor; [exact IH|].
      assert (Hyx : str_le y x).
      { destruct (String.leb_total x y) as [H|H]; [congruence|exact H]. }
      rewrite Forall_forall. intros z Hz.
      apply (Permutation_in _ (insert_sorted_Permutation x l)) in Hz.
      destruct Hz as [<-|Hz]; [exact Hyx|].
      rewrite Forall_forall in Hy. exact (Hy z Hz).
Qed.

Lemma sorted_StronglySorted : forall l, StronglySorted str_le (sorted l).
Proof.
  induction l as [|x l IH]; simpl; [constructor|].
  apply insert_sorted_StronglySorted. exact IH.
Qed.

Lemma StronglySorted_unique : forall l1 l2,
  StronglySorted str_le l1 -> StronglySorted str_le l2 -> Permutation l1 l2 -> l1 = l2.
Proof.
  induction l1 as [|a l1 IH]; intros l2 H1 H2 Hp.
  - apply Permutation_nil in Hp. subst l2. reflexivity.
  - destruct l2 as [|b l2]; [apply Permutation_sym, Permutation_nil in Hp; discriminate Hp|].
    inversion H1 as [|? ? H1' Ha]; subst. inversion H2 as [|? ? H2' Hb]; subst.
    rewrite Forall_forall in Ha, Hb.
    assert (Hab : a = b).
    { assert (Ha2 : In a (b :: l2)) by (apply (Permutation_in _ Hp); left; reflexivity).
      assert (Hb1 : In b (a :: l1))
        by (apply (Permutation_in _ (Permutation_sym Hp)); left; reflexivity).
      destruct Ha2 as [->|Ha2]; [reflexivity|].
      destruct Hb1 as [->|Hb1]; [reflexivity|].
      apply String.leb_antisym; [exact (Ha b Hb1)|exact (Hb a Ha2)]. }
    subst b. f_equal. apply IH; try assumption.
    exact (Permutation_cons_inv Hp).
Qed.

(** X22: The cycle line does not depend on the order in which the catalog
    gives the names: two catalogs with the same names, as often each,
    give the same line. The names are written in code-point order, and a
    name the catalog gives twice is written twice. *)
Theorem new_mapcycle_ignores_catalog_order :
  forall names names',
    Permutation names names' ->
    new_mapcycle names = new_mapcycle names'
    /\ Permutation (sorted names) names
    /\ StronglySorted str_le (sorted names).
Proof.
  intros names names' Hp. split; [|split].
  - unfold new_mapcycle. do 4 f_equal.
    apply StronglySorted_unique; try apply sorted_StronglySorted.
    rewrite !sorted_Permutation. exact Hp.
  - apply sorted_Permutation.
  - apply sorted_StronglySorted.
Qed.

Lemma new_mapcycle_ignores_catalog_order_witness :
  new_mapcycle ["KF-B"; "KF-A"; "KF-B"] = new_mapcycle ["KF-B"; "KF-B"; "KF-A"]
  /\ Permutation (sorted ["KF-B"; "KF-A"; "KF-B"]) ["KF-B"; "KF-A"; "KF-B"]
  /\ StronglySorted str_le (sorted ["KF-B"; "KF-A"; "KF-B"]).
Proof.
  apply (new_mapcycle_ignores_catalog_order ["KF-B"; "KF-A"; "KF-B"] ["KF-B"; "KF-B"; "KF-A"]).
  apply perm_skip. apply perm_swap.
Defined.

End CycleLine.

(* ================================================================== *)
(** ** [get_custom_map_names]: the catalog of custom maps *)
(* ================================================================== *)

Module Catalog.
Import Py.

(** [str.casefold] on ASCII text: the capital letters are lowered. *)
Definition casefold_char (c : ascii) : ascii :=
  let n := nat_of_ascii c in
  if (65 <=? n)%nat && (n <=? 90)%nat then ascii_of_nat (n + 32) else c.

Fixpoint casefold (s : string) : string :=
  match s with
  | EmptyString => EmptyString
  | String c r => String (casefold_char c) (casefold r)
  end.

(** The text before the last dot and the text from it on, if there is a
    dot. *)
Fixpoint split_last_dot (s : string) : option (string * string) :=
  match s with
  | EmptyString => None
  | String c r =>
      match split_last_dot r with
      | Some (root, ext) => Some (String c root, ext)
      | None => if Ascii.eqb c "."%char then Some (EmptyString, s) else None
      end
  end.

(** [os.path.splitext] on a file name (no directory separator in it): the
    extension starts at the last dot, unless only dots come before it. *)
Definition splitext (p : string) : string * string :=
  match split_last_dot p with
  | Some (root, ext) =>
      if all_chars (Ascii.eqb "."%char) root then (p, EmptyString) else (root, ext)
  | None => (p, EmptyString)
  end.

(** One directory of a walk: its file names, each with what
    [os.path.isfile] says of it. A walk is the list of the directories
    [os.walk] yields; a path that does not exist yields none. *)
Definition dir_listing : Type := list (string * bool).
Definition walk : Type := list dir_listing.

(** The body of the innermost loop: the name appended, if any. *)
Definition map_name_of (file : string * bool) : list string :=
  let file_name := fst file in
  let '(name, extension) := splitext file_name in
  if negb (snd file) then []
  else if negb (startswith (casefold file_name) "kf-") then []
  else if negb (String.eqb (casefold extension) ".kfm") then []
  else [name].

(** The walks of the cache directory and of the custom directories, in
    that order. *)
Definition get_custom_map_names (cache : walk) (custom : list walk) : list string :=
  flat_map (fun w => flat_map (fun d => flat_map map_name_of d) w) (cache :: custom).

End Catalog.

Section CatalogNames.
Import Py Catalog.

Lemma casefold_app : forall a b, casefold (a +++ b) = casefold a +++ casefold b.
Proof. induction a as [|c a IH]; intros b; simpl; [reflexivity|]. rewrite IH. reflexivity. Qed.

Lemma casefold_char_dot : forall c,
  casefold_char c = "."%char -> c = "."%char.
Proof.
  intros c. destruct c as [[] [] [] [] [] [] [] []]; intros H;
    try reflexivity; discriminate H.
Qed.

Lemma split_last_dot_None : forall s,
  split_last_dot s = None -> str_contains "."%char s = false.
Proof.
  induction s as [|c r IH]; simpl; [reflexivity|].
  destruct (split_last_dot r) as [[root ext]|]; [discriminate|].
  destruct (Ascii.eqb c "."%char); [discriminate|]. intros _. simpl. exact (IH eq_refl).
Qed.

Lemma split_last_dot_Some : forall s root ext,
  split_last_dot s = Some (root, ext) ->
  s = root +++ ext
  /\ exists tail, ext = String "."%char tail /\ str_contains "."%char tail = false.
Proof.
  induction s as [|c r IH]; intros root ext H; simpl in H; [discriminate H|].
  destruct (split_last_dot r) as [[root' ext']|] eqn:E.
  - injection H as <- <-. destruct (IH root' ext' eq_refl) as (-> & tail & -> & Ht).
    split; [reflexivity|]. exists tail. split; [reflexivity|exact Ht].
  - destruct (Ascii.eqb c "."%char) eqn:Ec; [|discriminate H].
    injection H as <- <-. apply Ascii.eqb_eq in Ec. subst c.
    split; [reflexivity|]. exists r. split; [reflexivity|].
    exact (split_last_dot_None r E).
Qed.

Lemma split_last_dot_dotless : forall s,
  str_contains "."%char s = false -> split_last_dot s = None.
Proof.
  induction s as [|c r IH]; simpl; [reflexivity|].
  intros H. apply orb_false_iff in H. destruct H as [Hc Hr].
  rewrite (IH Hr), Hc. reflexivity.
Qed.

Lemma split_last_dot_app : forall root tail,
  str_contains "."%char tail = false ->
  split_last_dot (root +++ String "."%char tail) = Some (root, String "."%char tail).
Proof.
  induction root as [|c root IH]; intros tail H.
  - simpl. rewrite (split_last_dot_dotless tail H). reflexivity.
  - change (String c root +++ String "."%char tail)
      with (String c (root +++ String "."%char tail)).
    cbn [split_last_dot]. rewrite (IH tail H). reflexivity.
Qed.

Lemma prefix_app : forall p a b,
  String.prefix p a = true -> String.prefix p (a +++ b) = true.
Proof.
  induction p as [|c p IH]; intros a b H.
  - destruct (a +++ b); reflexivity.
  - destruct a as [|d a]; [discriminate H|]. simpl in *.
    destruct (ascii_dec c d); [exact (IH a b H)|discriminate H].
Qed.

(** An extension that [casefold] turns into [.kfm]: a dot and three
    characters that are not dots. *)
Lemma kfm_extension : forall ext,
  casefold ext = ".kfm" ->
  exists tail, ext = String "."%char tail /\ str_contains "."%char tail = false.
Proof.
  intros ext H.
  destruct ext as [|c0 [|c1 [|c2 [|c3 [|c4 r]]]]]; try discriminate H.
  simpl in H. injection H as H0 H1 H2 H3.
  apply casefold_char_dot in H0. subst c0.
  exists (String c1 (String c2 (String c3 EmptyString))). split; [reflexivity|].
  simpl.
  assert (Hd : forall c x, casefold_char c = x -> x <> "."%char -> Ascii.eqb c "."%char = false).
  { intros c x Hc Hx. apply Ascii.eqb_neq. intros ->. apply Hx. rewrite <- Hc. reflexivity. }
  rewrite (Hd c1 _ H1), (Hd c2 _ H2), (Hd c3 _ H3) by discriminate. reflexivity.
Qed.

(** A name whose casefold starts with [kf-] does not consist of dots. *)
Lemma kf_name_not_dots : forall name,
  startswith (casefold name) "kf-" = true ->
  all_chars (Ascii.eqb "."%char) name = false.
Proof.
  intros name H. destruct name as [|c r]; [discriminate H|].
  unfold startswith in H. cbn [casefold String.prefix] in H.
  destruct (ascii_dec "k"%char (casefold_char c)) as [E|]; [|discriminate H].
  cbn [all_chars]. replace (Ascii.eqb "."%char c) with false; [reflexivity|].
  symmetry. apply Ascii.eqb_neq. intros <-. vm_compute in E. discriminate E.
Qed.

(** The [kf-] at the start of a file name lies before its last dot. *)
Lemma kf_prefix_in_root : forall root tail,
  startswith (casefold (root +++ String "."%char tail)) "kf-" = true ->
  startswith (casefold root) "kf-" = true.
Proof.
  intros root tail H. unfold startswith in *.
  destruct root as [|c1 [|c2 [|c3 r]]];
    cbn [casefold String.prefix String.append] in *.
  - discriminate H.
  - destruct (ascii_dec "k"%char (casefold_char c1)); discriminate H.
  - destruct (ascii_dec "k"%char (casefold_char c1)); [|discriminate H].
    destruct (ascii_dec "f"%char (casefold_char c2)); discriminate H.
  - destruct (ascii_dec "k"%char (casefold_char c1)); [|discriminate H].
    destruct (ascii_dec "f"%char (casefold_char c2)); [|discriminate H].
    destruct (ascii_dec "-"%char (casefold_char c3)); [|discriminate H].
    destruct (casefold r); reflexivity.
Qed.

Lemma map_name_of_spec : forall file name,
  In name (map_name_of file)
  <-> exists ext,
        file = (name +++ ext, true)
        /\ casefold ext = ".kfm"
        /\ startswith (casefold name) "kf-" = true.
Proof.
  intros [file_name is_file] name. unfold map_name_of. cbn [fst snd]. split.
  - destruct (splitext file_name) as [root ext] eqn:Es.
    destruct is_file; [|intros []]. cbn [negb].
    destruct (startswith (casefold file_name) "kf-") eqn:Ek; [|intros []]. cbn [negb].
    destruct (String.eqb (casefold ext) ".kfm") eqn:Ee; [|intros []]. cbn [negb].
    intros [Hn|[]]. subst root. apply String.eqb_eq in Ee.
    unfold splitext in Es.
    destruct (split_last_dot file_name) as [[root' ext']|] eqn:Ed.
    + destruct (all_chars (Ascii.eqb "."%char) root').
      * injection Es as Hr He. subst ext. discriminate Ee.
      * injection Es as Hr He. subst root' ext'.
        destruct (split_last_dot_Some _ _ _ Ed) as (Hf & tail & Ht & _).
        subst file_name ext.
        exists (String "."%char tail). repeat split; [exact Ee|].
        exact (kf_prefix_in_root name tail Ek).
    + injection Es as Hr He. subst ext. discriminate Ee.
  - intros (ext & E & Hext & Hk). injection E as -> ->.
    destruct (kfm_extension ext Hext) as (tail & -> & Htail).
    unfold splitext. rewrite (split_last_dot_app name tail Htail).
    rewrite (kf_name_not_dots name Hk). cbn [negb].
    replace (startswith (casefold (name +++ String "."%char tail)) "kf-") with true.
    + rewrite Hext. left. reflexivity.
    + symmetry. unfold startswith in *. rewrite casefold_app. apply prefix_app. exact Hk.
Qed.

(** X23: The catalog holds exactly the names of the regular files found by
    the walks whose name, letter case apart, starts with [kf-] and ends in
    the extension [.kfm]: each such file gives its name without that
    extension, and every name in the catalog comes from such a file and
    itself starts, letter case apart, with [kf-]. *)
Theorem get_custom_map_names_spec :
  forall (cache : walk) (custom : list walk) (name : string),
    In name (get_custom_map_names cache custom)
    <-> exists w d ext,
          In w (cache :: custom) /\ In d w /\ In (name +++ ext, true) d
          /\ casefold ext = ".kfm"
          /\ startswith (casefold name) "kf-" = true.
Proof.
  intros cache custom name. unfold get_custom_map_names.
  rewrite in_flat_map. split.
  - intros (w & Hw & H). apply in_flat_map in H. destruct H as (d & Hd & H).
    apply in_flat_map in H. destruct H as (file & Hf & H).
    apply map_name_of_spec in H. destruct H as (ext & -> & He & Hk).
    exists w, d, ext. auto.
  - intros (w & d & ext & Hw & Hd & Hf & He & Hk).
    exists w. split; [exact Hw|]. apply in_flat_map. exists d. split; [exact Hd|].
    apply in_flat_map. exists (name +++ ext, true). split; [exact Hf|].
    apply map_name_of_spec. exists ext. auto.
Qed.

End CatalogNames.

(* ================================================================== *)
(** ** [Base/kf2.py]: the earlier [rebuild_map_summaries] *)
(* ================================================================== *)

Module BaseSummaries.
Import Py KF2 Catalog.

(** The body of the innermost loop of the earlier method: the table
    after one file. *)
Definition add_file (section_table : table) (file : string * bool) : table :=
  let file_name := fst file in
  let '(name, extension) := splitext file_name in
  if negb (snd file) then section_table
  else if negb (startswith (casefold file_name) "kf-") then section_table
  else if negb (String.eqb (casefold extension) ".kfm") then section_table
  else dict_set (summary_header name) [summary_line name] section_table.

(** The earlier method between its read and its write: the one-line
    summaries are deleted, then the directories are walked and every map
    file found is written into the table at once. *)
Definition rebuild_table (cache : walk) (custom : list walk) (section_table : table)
  : table :=
  fold_left
    (fun t w => fold_left (fun t d => fold_left add_file d t) w t)
    (cache :: custom)
    (drop_custom_summaries section_table).

End BaseSummaries.

Section SummariesVariants.
Import Py KF2 Catalog.

Lemma fold_left_flat_map : forall (A B C : Type) (f : A -> C -> A) (g : B -> list C)
  (l : list B) (a : A),
  fold_left f (flat_map g l) a = fold_left (fun a x => fold_left f (g x) a) l a.
Proof.
  intros A B C f g l. induction l as [|x l IH]; intros a; [reflexivity|].
  cbn [flat_map fold_left]. rewrite fold_left_app. apply IH.
Qed.

Lemma add_file_names : forall t file,
  BaseSummaries.add_file t file
  = fold_left (fun t name => dict_set (summary_header name) [summary_line name] t)
      (map_name_of file) t.
Proof.
  intros t file. unfold BaseSummaries.add_file, map_name_of.
  destruct (splitext (fst file)) as [name extension].
  destruct (negb (snd file)); [reflexivity|].
  destruct (negb (startswith (casefold (fst file)) "kf-")); [reflexivity|].
  destruct (negb (String.eqb (casefold extension) ".kfm")); reflexivity.
Qed.

Lemma fold_left_ext : forall (A B : Type) (f g : A -> B -> A) (l : list B) (a : A),
  (forall a x, f a x = g a x) -> fold_left f l a = fold_left g l a.
Proof.
  intros A B f g l. induction l as [|x l IH]; intros a H; [reflexivity|].
  simpl. rewrite H. apply IH. exact H.
Qed.

(** X24: The later [rebuild_map_summaries], which first collects the catalog
    with [get_custom_map_names] and then writes the summaries, gives the
    table the earlier method gives, which writes each summary as the walk
    finds the file: the same sections in the same order, for every table
    and every content of the directories. *)
Theorem rebuild_same_as_earlier_method :
  forall (cache : walk) (custom : list walk) (t : table),
    rebuild_table (get_custom_map_names cache custom) t
    = BaseSummaries.rebuild_table cache custom t.
Proof.
  intros cache custom t.
  unfold rebuild_table, BaseSummaries.rebuild_table, add_summaries, get_custom_map_names.
  rewrite fold_left_flat_map. apply fold_left_ext. intros a w.
  rewrite fold_left_flat_map. apply fold_left_ext. intros a' d.
  rewrite fold_left_flat_map. apply fold_left_ext. intros a'' file.
  symmetry. apply add_file_names.
Qed.

End SummariesVariants.

(* ================================================================== *)
(** ** The sync step: setting the items, then clearing the cache *)
(* ================================================================== *)

Section Sync.
Import Py KF2.

Lemma dict_lookup_with_trailing_blank : forall (t : table) k v,
  dict_lookup k t = Some v ->
  exists v', dict_lookup k (with_trailing_blank t) = Some v'
             /\ (v' = v \/ v' = v ++ [EmptyString]).
Proof.
  induction t as [|[k0 v0] t IH]; intros k v H; [discriminate H|].
  destruct t as [|kv' t'].
  - simpl in *. destruct (String.eqb k0 k); [|discriminate H].
    injection H as <-. exists (v0 ++ [EmptyString]). split; [reflexivity|right; reflexivity].
  - change (with_trailing_blank ((k0, v0) :: kv' :: t'))
      with ((k0, v0) :: with_trailing_blank (kv' :: t')).
    cbn [dict_lookup] in *. destruct (String.eqb k0 k).
    + injection H as <-. exists v0. split; [reflexivity|left; reflexivity].
    + exact (IH k v H).
Qed.

Lemma map_ids_app : forall l l', map_ids (l ++ l') = map_ids l ++ map_ids l'.
Proof.
  induction l as [|x l IH]; intros l'; [reflexivity|].
  cbn [app map_ids]. destruct (re_number_search x); rewrite IH; reflexivity.
Qed.

Lemma str_in_ext : forall s l l',
  (forall x, In x l <-> In x l') -> str_in s l = str_in s l'.
Proof.
  intros s l l' H.
  destruct (str_in s l) eqn:E1; destruct (str_in s l') eqn:E2; try reflexivity.
  - apply str_in_In, H, str_in_In in E1. congruence.
  - apply str_in_In, H, str_in_In in E2. congruence.
Qed.

Lemma clear_loop_ext : forall ids ids' listing cache,
  (forall x, str_in x ids = str_in x ids') ->
  clear_loop ids listing cache = clear_loop ids' listing cache.
Proof.
  intros ids ids' listing cache H. revert cache.
  induction listing as [|x listing IH]; intros cache; [reflexivity|].
  cbn [clear_loop]. rewrite (H (entry_name x)).
  destruct (str_in (entry_name x) ids'); [apply IH|].
  destruct (rmtree x cache); [apply IH|reflexivity].
Qed.

(** X25: The sync step of [start_kf2_server] on the files: once
    [set_workshop_items] has replaced the subscription by the
    (non-negative) IDs [ids] and written the table, a well-formed one,
    [clear_unregistered_workshop_maps] reads it back and never removes a
    cache entry named after one of [ids]; it adds no entry and writes no
    file. It raises nothing exactly when [rmtree] can delete every other
    entry, and then leaves exactly the entries named after one of [ids],
    in their order; otherwise it ends with the [OSError] of [rmtree]. *)
Theorem sync_keeps_subscribed_cache :
  forall (order : SetOrder) (ids : list Z) (t t1 : table) (d : disk)
         (cache : list cache_entry),
    (forall id, In id ids -> 0 <= id) ->
    set_items ids false t = Ok t1 ->
    well_formed t1 ->
    cache_dir d = Some cache ->
    exists d' raised kept,
      clear_unregistered_workshop_maps (write_table_to_ini_file EngineIni t1 d)
      = (d', raised)
      /\ cache_dir d' = Some kept
      /\ (forall e, In e cache -> protected (map str_of_int ids) e = true -> In e kept)
      /\ (forall e, In e kept -> In e cache)
      /\ (raised = None
          <-> forall e, In e cache ->
                protected (map str_of_int ids) e = false -> deletable e = true)
      /\ (raised = None -> kept = filter (protected (map str_of_int ids)) cache)
      /\ (raised <> None -> raised = Some OSError)
      /\ engine_ini d' = Some (content_of_table t1)
      /\ game_ini d' = game_ini d.
Proof.
  intros order ids t t1 d cache Hpos Hset Hwf Hcache.
  rewrite set_items_unfold in Hset.
  destruct (stored_items t) as [ex|]; [|discriminate Hset].
  simpl in Hset. injection Hset as Ht1.
  assert (Hl : dict_lookup _workshop_section_key t1
               = Some (map workshop_line (set_iter ids))).
  { rewrite <- Ht1. apply dict_lookup_set_same. }
  assert (Hne : t1 <> []) by (intros E; rewrite E in Hl; discriminate Hl).
  unfold clear_unregistered_workshop_maps, read_ini_file_to_table, write_table_to_ini_file.
  cbn [file_of write_file engine_ini game_ini cache_dir bind].
  rewrite (table_of_content_of_table t1 Hwf). unfold read_back.
  destruct t1 as [|kv r] eqn:Et; [contradiction|]. rewrite <- Et in *.
  destruct (dict_lookup_with_trailing_blank t1 _ _ Hl) as (lines' & Hl' & Hlines').
  rewrite Hl'. rewrite Hcache.
  assert (Hids : map_ids lines' = map str_of_int (set_iter ids)).
  { destruct Hlines' as [->| ->];
      [|rewrite map_ids_app; cbn [map_ids re_number_search]; rewrite app_nil_r];
      apply map_ids_written; intros id Hid; apply Hpos; apply set_iter_In; exact Hid. }
  assert (Hext : forall x, str_in x (map_ids lines') = str_in x (map str_of_int ids)).
  { intros x. rewrite Hids. apply str_in_ext.
    intros y. rewrite !in_map_iff. split; intros (id & E & Hid); exists id;
      (split; [exact E|]); apply set_iter_In; exact Hid. }
  rewrite (clear_loop_ext _ _ cache cache Hext).
  set (ids' := map str_of_int ids).
  destruct (clear_loop ids' cache cache) as [kept raised] eqn:Eloop.
  exists {| game_ini := game_ini d; engine_ini := Some (content_of_table t1);
            cache_dir := Some kept |}, raised, kept.
  cbn [cache_dir engine_ini game_ini].
  split; [reflexivity|]. split; [reflexivity|].
  assert (Ek : kept = fst (clear_loop ids' cache cache)) by (rewrite Eloop; reflexivity).
  assert (Er : raised = snd (clear_loop ids' cache cache)) by (rewrite Eloop; reflexivity).
  split; [intros e Hin Hp; rewrite Ek; apply clear_loop_safe; assumption|].
  split; [intros e; rewrite Ek; apply clear_loop_incl|].
  split; [rewrite Er, clear_loop_None; apply passable_all|].
  split.
  { intros Hn. rewrite Er in Hn. apply clear_loop_None in Hn.
    rewrite Ek, (clear_loop_keeps_ids ids' cache Hn). reflexivity. }
  split; [|split; reflexivity].
  intros Hn. rewrite Er in Hn |- *.
  destruct (first_not_passable ids' cache) as [H|(pre & f & post & E & H & Hf)].
  - exfalso. apply Hn. apply clear_loop_None. exact H.
  - rewrite E at 1. rewrite (clear_loop_stops ids' pre f post cache H Hf). reflexivity.
Qed.

Lemma sync_keeps_subscribed_cache_witness :
  exists d' raised kept,
    clear_unregistered_workshop_maps
      (write_table_to_ini_file EngineIni
         [("[Engine]", ["x=1"]); (_workshop_section_key, map workshop_line [12; 7])]
         {| game_ini := None; engine_ini := None; cache_dir := Some cache_with_file |})
    = (d', raised)
    /\ cache_dir d' = Some kept
    /\ (forall e, In e cache_with_file ->
          protected (map str_of_int [12; 7]) e = true -> In e kept)
    /\ (forall e, In e kept -> In e cache_with_file)
    /\ (raised = None
        <-> forall e, In e cache_with_file ->
              protected (map str_of_int [12; 7]) e = false -> deletable e = true)
    /\ (raised = None -> kept = filter (protected (map str_of_int [12; 7])) cache_with_file)
    /\ (raised <> None -> raised = Some OSError)
    /\ engine_ini d'
       = Some (content_of_table
                 [("[Engine]", ["x=1"]); (_workshop_section_key, map workshop_line [12; 7])])
    /\ game_ini d' = None.
Proof.
  apply (sync_keeps_subscribed_cache slot_order [12; 7] [("[Engine]", ["x=1"])]
           [("[Engine]", ["x=1"]); (_workshop_section_key, map workshop_line [12; 7])]
           {| game_ini := None; engine_ini := None; cache_dir := Some cache_with_file |}
           cache_with_file).
  - intros id [<-|[<-|[]]]; lia.
  - reflexivity.
  - split.
    + repeat constructor; simpl; intuition discriminate.
    + repeat constructor.
  - reflexivity.
Defined.

End Sync.

(* ================================================================== *)
(** ** One method after another, through the files *)
(* ================================================================== *)

Section ThroughFiles.
Import Py KF2.

(** What a method reads from the file the method before it wrote. *)
Lemma read_written : forall (p : ini) (d : disk) (w : table),
  well_formed w -> w <> [] ->
  read_ini_file_to_table p (write_table_to_ini_file p w d) = Ok (with_trailing_blank w).
Proof.
  intros p d w Hwf Hne. unfold read_ini_file_to_table, write_table_to_ini_file.
  destruct p; simpl; rewrite (table_of_content_of_table w Hwf);
    (destruct w; [elim Hne; reflexivity|reflexivity]).
Qed.



(** Where a header sits in a table with no header twice. *)
Lemma NoDup_keys_middle : forall (V : Type) (a b : dict V) k v,
  NoDup (keys (a ++ (k, v) :: b)) -> ~ In k (keys a) /\ ~ In k (keys b).
Proof.
  intros V a b k v H. unfold keys in *. rewrite map_app in H. cbn [map fst] in H.
  apply NoDup_remove_2 in H. split; intros Hin; apply H; apply in_or_app; tauto.
Qed.

(** The empty line the read adds is no subscription line to
    [set_workshop_items]. *)
Lemma stored_items_with_trailing_blank : forall t,
  stored_items (with_trailing_blank t) = stored_items t.
Proof.
  intros t. unfold stored_items, section_lines.
  destruct (dict_lookup _workshop_section_key t) as [lines|] eqn:E.
  - destruct (dict_lookup_with_trailing_blank t _ _ E) as (lines' & -> & [->| ->]);
      [reflexivity|].
    unfold existing_items_guarded. rewrite filter_app. cbn [filter str_contains].
    rewrite app_nil_r. reflexivity.
  - replace (dict_lookup _workshop_section_key (with_trailing_blank t)) with (@None (list string));
      [reflexivity|].
    symmetry. apply dict_lookup_None. rewrite keys_with_trailing_blank.
    apply dict_lookup_None. exact E.
Qed.

Lemma app_blank_differs : forall (lines : list string), lines ++ [EmptyString] <> lines.
Proof.
  intros lines H. apply (f_equal (@List.length string)) in H.
  rewrite length_app in H. simpl in H. lia.
Qed.

(** C9: two runs of [rebuild_map_summaries] with the same catalog names do
    not leave the file of the first. When the table the first run writes
    (a well-formed one) ends in a section [h] that is no summary section
    and that the catalog does not regenerate, the second run reads that
    section back with an empty line added to its body, keeps it so and
    writes it so: the table of the second run holds [h] with another
    body, and is not the table of the first run in any order. *)
Theorem rebuild_twice_through_file_differs :
  forall (names : list string) (d : disk) (content : string)
         (t : table) (h : string) (lines : list string),
    game_ini d = Some content ->
    rebuild_table names (table_of_content content) = t ++ [(h, lines)] ->
    well_formed (t ++ [(h, lines)]) ->
    re_map_summary_match h = false ->
    ~ In h (map summary_header names) ->
    exists d1 d2 w2,
      rebuild_map_summaries names d = Ok d1
      /\ game_ini d1 = Some (content_of_table (t ++ [(h, lines)]))
      /\ rebuild_map_summaries names d1 = Ok d2
      /\ game_ini d2 = Some (content_of_table w2)
      /\ w2 = rebuild_table names (t ++ [(h, lines ++ [EmptyString])])
      /\ dict_lookup h (t ++ [(h, lines)]) = Some lines
      /\ dict_lookup h w2 = Some (lines ++ [EmptyString])
      /\ ~ Permutation w2 (t ++ [(h, lines)]).
Proof.
  intros names d content t h lines Hfile Hw1 Hwf Hre Hout.
  set (w1 := t ++ [(h, lines)]) in *.
  set (d1 := write_table_to_ini_file GameIni w1 d).
  assert (Hne : w1 <> []) by (unfold w1; destruct t; discriminate).
  assert (Hfresh : ~ In h (keys t)).
  { destruct Hwf as [Hnd _]. exact (proj1 (NoDup_keys_middle _ t [] h lines Hnd)). }
  assert (Hnd2 : NoDup (keys (t ++ [(h, lines ++ [EmptyString])]))).
  { rewrite <- with_trailing_blank_last, keys_with_trailing_blank. exact (proj1 Hwf). }
  assert (Hl2 : dict_lookup h (rebuild_table names (t ++ [(h, lines ++ [EmptyString])]))
                = Some (lines ++ [EmptyString])).
  { rewrite (dict_lookup_rebuild names _ h Hnd2).
    rewrite (last_name_for_not_In names h Hout).
    rewrite (dict_lookup_last _ t h _ Hfresh).
    unfold not_custom, is_custom_summary. cbn [fst snd]. rewrite Hre. reflexivity. }
  exists d1, (write_table_to_ini_file GameIni
                (rebuild_table names (t ++ [(h, lines ++ [EmptyString])])) d1),
         (rebuild_table names (t ++ [(h, lines ++ [EmptyString])])).
  split.
  { unfold rebuild_map_summaries, read_ini_file_to_table. cbn [file_of].
    rewrite Hfile. cbn [bind]. rewrite Hw1. reflexivity. }
  split; [reflexivity|].
  split.
  { unfold rebuild_map_summaries. unfold d1 at 1.
    rewrite (read_written GameIni d w1 Hwf Hne). cbn [bind].
    unfold w1. rewrite with_trailing_blank_last. reflexivity. }
  split; [reflexivity|]. split; [reflexivity|].
  split; [apply (dict_lookup_last _ t h lines Hfresh)|].
  split; [exact Hl2|].
  intros Hperm.
  assert (Hin : In (h, lines) (rebuild_table names (t ++ [(h, lines ++ [EmptyString])]))).
  { apply (Permutation_in _ (Permutation_sym Hperm)).
    unfold w1. apply in_or_app. right. left. reflexivity. }
  apply In_dict_lookup in Hin; [|apply NoDup_keys_rebuild; exact Hnd2].
  rewrite Hl2 in Hin. injection Hin as Hin. exact (app_blank_differs lines Hin).
Qed.

(** A game file with an authored two-line summary of KF-A before the
    engine section. *)
Definition game_file_authored : string :=
  "[KF-A KFMapSummary]" +++ newline +++ "1" +++ newline +++ "2" +++ newline +++ newline
  +++ "[Engine]" +++ newline +++ "x=1".

Definition game_disk_authored : disk :=
  {| game_ini := Some game_file_authored; engine_ini := None; cache_dir := None |}.

Lemma rebuild_twice_through_file_differs_witness :
  exists d1 d2 w2,
    rebuild_map_summaries ["KF-A"] game_disk_authored = Ok d1
    /\ game_ini d1
       = Some (content_of_table
                 ([("[KF-A KFMapSummary]", ["MapName=KF-A"])] ++ [("[Engine]", ["x=1"])]))
    /\ rebuild_map_summaries ["KF-A"] d1 = Ok d2
    /\ game_ini d2 = Some (content_of_table w2)
    /\ w2 = rebuild_table ["KF-A"]
              ([("[KF-A KFMapSummary]", ["MapName=KF-A"])]
               ++ [("[Engine]", ["x=1"] ++ [EmptyString])])
    /\ dict_lookup "[Engine]"
         ([("[KF-A KFMapSummary]", ["MapName=KF-A"])] ++ [("[Engine]", ["x=1"])])
       = Some ["x=1"]
    /\ dict_lookup "[Engine]" w2 = Some (["x=1"] ++ [EmptyString])
    /\ ~ Permutation w2
           ([("[KF-A KFMapSummary]", ["MapName=KF-A"])] ++ [("[Engine]", ["x=1"])]).
Proof.
  apply (rebuild_twice_through_file_differs ["KF-A"] game_disk_authored game_file_authored
           [("[KF-A KFMapSummary]", ["MapName=KF-A"])] "[Engine]" ["x=1"]).
  - reflexivity.
  - reflexivity.
  - split.
    + repeat constructor; simpl; intuition discriminate.
    + repeat constructor.
  - reflexivity.
  - intros [H|[]]. discriminate H.
Defined.



(** X12: REPLACE through the files forgets what was stored. On the file
    written after any successful [set_workshop_items] (a well-formed
    table), [set_workshop_items] with REPLACE succeeds and writes the
    table it read back, which has an empty line added to its last
    section, with the subscription section holding the lines of the new
    IDs: the IDs stored are the new ones, each once, whatever was stored
    before. The game file and the cache are left alone. *)
Theorem replace_through_file_forgets_history :
  forall (order : SetOrder) (a b : list Z) (append : bool) (t t1 : table) (d : disk),
    set_items a append t = Ok t1 ->
    well_formed t1 ->
    exists d2 t2,
      set_workshop_items b false (write_table_to_ini_file EngineIni t1 d) = Ok d2
      /\ engine_ini d2 = Some (content_of_table t2)
      /\ t2 = dict_set _workshop_section_key (map workshop_line (set_iter b))
                (with_trailing_blank t1)
      /\ section_lines t2 = map workshop_line (set_iter b)
      /\ stored_items t2 = Ok (set_iter b)
      /\ NoDup (set_iter b)
      /\ (forall x, In x (set_iter b) <-> In x b)
      /\ game_ini d2 = game_ini d
      /\ cache_dir d2 = cache_dir d.
Proof.
  intros order a b append t t1 d Hset Hwf.
  rewrite set_items_unfold in Hset.
  destruct (stored_items t) as [ex|] eqn:Eex; [|discriminate Hset].
  cbn [bind] in Hset. injection Hset as Ht1.
  assert (Hst1 : exists l, stored_items t1 = Ok l).
  { eexists. rewrite <- Ht1. unfold stored_items. rewrite section_lines_set.
    apply existing_items_guarded_written. }
  destruct Hst1 as (l & Hst1).
  assert (Hne : t1 <> []).
  { intros E. pose proof (dict_lookup_set_same t _workshop_section_key
                            (map workshop_line
                               (if append then set_iter (a ++ ex) else set_iter a))) as Hl.
    rewrite Ht1, E in Hl. discriminate Hl. }
  eexists. eexists. split.
  { unfold set_workshop_items. rewrite (read_written EngineIni d t1 Hwf Hne). cbn [bind].
    rewrite set_items_unfold, stored_items_with_trailing_blank, Hst1. cbn [bind].
    reflexivity. }
  cbn [write_table_to_ini_file write_file engine_ini game_ini cache_dir].
  split; [reflexivity|]. split; [reflexivity|].
  split; [apply section_lines_set|].
  split.
  { unfold stored_items. rewrite section_lines_set. apply existing_items_guarded_written. }
  split; [apply set_iter_NoDup|].
  split; [intros x; apply set_iter_In|].
  split; reflexivity.
Qed.

Lemma replace_through_file_forgets_history_witness :
  exists d2 t2,
    @set_workshop_items slot_order [4] false
      (write_table_to_ini_file EngineIni
         [(_workshop_section_key, map workshop_line [1; 9; 2]); ("[Engine]", ["x=1"])]
         empty_disk)
    = Ok d2
    /\ engine_ini d2 = Some (content_of_table t2)
    /\ t2 = dict_set _workshop_section_key (map workshop_line (@set_iter slot_order [4]))
              (with_trailing_blank
                 [(_workshop_section_key, map workshop_line [1; 9; 2]);
                  ("[Engine]", ["x=1"])])
    /\ section_lines t2 = map workshop_line (@set_iter slot_order [4])
    /\ stored_items t2 = Ok (@set_iter slot_order [4])
    /\ NoDup (@set_iter slot_order [4])
    /\ (forall x, In x (@set_iter slot_order [4]) <-> In x [4])
    /\ game_ini d2 = game_ini empty_disk
    /\ cache_dir d2 = cache_dir empty_disk.
Proof.
  apply (replace_through_file_forgets_history slot_order [2; 1] [4] true
           [(_workshop_section_key, map workshop_line [9]); ("[Engine]", ["x=1"])]
           [(_workshop_section_key, map workshop_line [1; 9; 2]); ("[Engine]", ["x=1"])]
           empty_disk).
  - reflexivity.
  - split.
    + repeat constructor; simpl; intuition discriminate.
    + repeat constructor.
Defined.



End ThroughFiles.
